(** * A shallow embedding of the zap log-emission pipeline

    The development follows the Go sources package by package:
    [zapcore] (levels, entries, cores, the tee, the sampler and the checked
    entry) and [zap] (the logger front end and the sink registry).  Go code
    that mutates shared objects is written in state-passing style over a
    [World]; code that can panic or leave the process returns an
    [Outcome]. *)

From Stdlib Require Import ZArith List String Ascii Strings.Byte Bool Lia.
From stdpp Require Import base option gmap strings list.

Set Warnings "-register-all".
Local Open Scope Z_scope.

(** ** Machine integers *)

Definition wrap_uint32 (z : Z) : Z := z mod 2 ^ 32.
Definition wrap_uint64 (z : Z) : Z := z mod 2 ^ 64.
Definition wrap_int64 (z : Z) : Z := (z + 2 ^ 63) mod 2 ^ 64 - 2 ^ 63.

(** [uint64(x)] for an [int] on a 64-bit platform. *)
Definition uint64_of_int (x : Z) : Z := wrap_uint64 x.

(** ** Errors

    A Go [error] value.  [nil] is the empty list; a non-nil error is the list
    of the leaf errors it carries: one for a plain error, several for a
    composite built by [go.uber.org/multierr]. *)

Definition error := list string.
Definition nil_error : error := [].
Definition is_nil (e : error) : bool := match e with [] => true | _ => false end.

Module multierr.
(** [multierr.Append]: nil is the unit, and two non-nil errors are joined
    into one flat composite that keeps their order. *)
Definition Append (left right : error) : error :=
  match left, right with
  | [], _ => right
  | _, [] => left
  | _, _ => left ++ right
  end.
End multierr.

(** ** Levels *)

(** Modelled from the spec: the declaration of [Level] (level.go) is not among
    the sources.  The spec gives an ordered, integer-backed severity with the
    seven values Debug < Info < Warn < Error < DPanic < Panic < Fatal;
    [_minLevel] and [_maxLevel] are its two ends. *)
Inductive Level :=
| DebugLevel | InfoLevel | WarnLevel | ErrorLevel
| DPanicLevel | PanicLevel | FatalLevel.

Definition Level_to_Z (l : Level) : Z :=
  match l with
  | DebugLevel => -1
  | InfoLevel => 0
  | WarnLevel => 1
  | ErrorLevel => 2
  | DPanicLevel => 3
  | PanicLevel => 4
  | FatalLevel => 5
  end.

Definition _minLevel : Level := DebugLevel.

Definition Level_gtb (a b : Level) : bool := Level_to_Z b <? Level_to_Z a.

(** Modelled from the spec: the [LevelEnabler] interface (level.go) is not
    among the sources.  Its contract is the one method [Enabled(level) bool],
    and the cores only ever call that. *)
Definition LevelEnabler := Level -> bool.

(** ** Entries and fields *)

Record EntryCaller := {
  Defined_ : bool;
  PC : Z;
  File : string;
  Line : Z
}.

Definition no_caller : EntryCaller :=
  {| Defined_ := false; PC := 0; File := EmptyString; Line := 0 |}.

Definition NewEntryCaller (pc : Z) (file : string) (line : Z) (ok : bool)
  : EntryCaller :=
  if negb ok then no_caller
  else {| Defined_ := true; PC := pc; File := file; Line := line |}.

(** [Time] is kept as what [Time.UnixNano] returns, an int64. *)
Record Entry := {
  ent_Level : Level;
  ent_Time : Z;
  ent_LoggerName : string;
  ent_Message : string;
  ent_Caller : EntryCaller;
  ent_Stack : string
}.

Definition zero_Entry : Entry :=
  {| ent_Level := InfoLevel; ent_Time := 0; ent_LoggerName := EmptyString;
     ent_Message := EmptyString; ent_Caller := no_caller;
     ent_Stack := EmptyString |}.

(** Modelled from the spec: [Field] (field.go) is not among the sources; the
    spec has it as an opaque key-tagged value. *)
Definition Field := (string * string)%type.

(** ** Destinations and encoders (external collaborators) *)

(** What [fmt.Fprintf] formats for the error output. *)
Inductive Diag :=
| DiagReuse (now : Z) (ent : Entry)
| DiagWriteError (now : Z) (err : error)
| DiagCallerFailed (now : Z).

Inductive Payload :=
| PBytes (b : list byte)
| PDiag (d : Diag).

(** The observable effects of the pipeline, oldest first. *)
Inductive Event :=
| EvWrite (ws : nat) (p : Payload)
| EvSync (ws : nat)
| EvBufFree (buf : list byte).

(** Modelled from the spec: the [WriteSyncer] interface (write_syncer.go) is
    not among the sources.  The destination contract is [Write(bytes)], which
    returns a count and an error, and [Sync()], which returns an error.  A
    destination has an identity here, and what its [Write] and [Sync] return
    may depend on everything that happened before. *)
Record WriteSyncer := {
  ws_id : nat;
  ws_Write : list Event -> Payload -> error;
  ws_Sync : list Event -> error
}.

(** Modelled from the spec: the [Encoder] interface (encoder.go) is not among
    the sources.  The encoder contract is [EncodeEntry(entry, fields)], which
    returns a byte buffer and an error, [Clone()], which returns an
    independent encoder, and the addition of fields to the bound context. *)
Record Encoder := {
  enc_context : list Field;
  enc_EncodeEntry : list Field -> Entry -> list Field -> list byte * error
}.

Definition EncodeEntry (enc : Encoder) (ent : Entry) (fields : list Field)
  : list byte * error :=
  enc_EncodeEntry enc (enc_context enc) ent fields.

Definition Encoder_Clone (enc : Encoder) : Encoder :=
  {| enc_context := enc_context enc; enc_EncodeEntry := enc_EncodeEntry enc |}.

Definition addFields (enc : Encoder) (fields : list Field) : Encoder :=
  {| enc_context := enc_context enc ++ fields;
     enc_EncodeEntry := enc_EncodeEntry enc |}.

(** ** Cores *)

(** Pointers into the stores of the [World]. *)
Definition loc := positive.

(** The four implementations of the [Core] interface.  A [sampler] holds a
    pointer to its counter table. *)
Inductive Core :=
| nopCore
| ioCore (enab : LevelEnabler) (enc : Encoder) (out : WriteSyncer)
| multiCore (cores : list Core)
| sampler (core : Core) (counts : loc) (tick : Z) (first thereafter : Z).

Inductive CheckWriteAction :=
| WriteThenNoop
| WriteThenPanic
| WriteThenFatal.

Record CheckedEntry := {
  ce_Entry : Entry;
  ce_ErrorOutput : option WriteSyncer;
  ce_dirty : bool;
  ce_should : CheckWriteAction;
  ce_cores : list Core
}.

(** ** Sampling counters *)

Definition _countersPerLevel : Z := 4096.

Record counter := {
  resetAt : Z;      (* atomic.Int64 *)
  counter_n : Z     (* atomic.Uint64, the field [counter] *)
}.

Definition zero_counter : counter := {| resetAt := 0; counter_n := 0 |}.

(** [counters] is a [_numLevels] x [_countersPerLevel] array of counters; a
    cell that was never written holds the zero counter. *)
Abbreviation counters := (gmap (Z * Z) counter).

(** ** The world *)

Record World := {
  w_trace : list Event;                    (* effects so far *)
  w_counters : gmap loc counters;          (* counter tables, by pointer *)
  w_entries : gmap loc CheckedEntry;       (* checked entries, by pointer *)
  w_cePool : list loc;                     (* the contents of [_cePool] *)
  w_poolPick : list loc -> option nat;     (* which pooled item [Get] hands out *)
  w_clock : nat -> Z;                      (* successive results of [time.Now] *)
  w_clockIdx : nat;
  w_Caller : Z -> Z * string * Z * bool;   (* [runtime.Caller] *)
  w_Stack : string                         (* [Stack("").String] *)
}.

Definition set_trace (f : list Event -> list Event) (w : World) : World :=
  {| w_trace := f (w_trace w); w_counters := w_counters w;
     w_entries := w_entries w; w_cePool := w_cePool w;
     w_poolPick := w_poolPick w; w_clock := w_clock w;
     w_clockIdx := w_clockIdx w; w_Caller := w_Caller w;
     w_Stack := w_Stack w |}.

Definition set_counters (f : gmap loc counters -> gmap loc counters)
  (w : World) : World :=
  {| w_trace := w_trace w; w_counters := f (w_counters w);
     w_entries := w_entries w; w_cePool := w_cePool w;
     w_poolPick := w_poolPick w; w_clock := w_clock w;
     w_clockIdx := w_clockIdx w; w_Caller := w_Caller w;
     w_Stack := w_Stack w |}.

Definition set_entries (f : gmap loc CheckedEntry -> gmap loc CheckedEntry)
  (w : World) : World :=
  {| w_trace := w_trace w; w_counters := w_counters w;
     w_entries := f (w_entries w); w_cePool := w_cePool w;
     w_poolPick := w_poolPick w; w_clock := w_clock w;
     w_clockIdx := w_clockIdx w; w_Caller := w_Caller w;
     w_Stack := w_Stack w |}.

Definition set_cePool (f : list loc -> list loc) (w : World) : World :=
  {| w_trace := w_trace w; w_counters := w_counters w;
     w_entries := w_entries w; w_cePool := f (w_cePool w);
     w_poolPick := w_poolPick w; w_clock := w_clock w;
     w_clockIdx := w_clockIdx w; w_Caller := w_Caller w;
     w_Stack := w_Stack w |}.

Definition set_clockIdx (f : nat -> nat) (w : World) : World :=
  {| w_trace := w_trace w; w_counters := w_counters w;
     w_entries := w_entries w; w_cePool := w_cePool w;
     w_poolPick := w_poolPick w; w_clock := w_clock w;
     w_clockIdx := f (w_clockIdx w); w_Caller := w_Caller w;
     w_Stack := w_Stack w |}.

Definition emit (e : Event) (w : World) : World :=
  set_trace (fun t => t ++ [e]) w.

(** ** Outcomes *)

Inductive PanicValue :=
| PanicString (msg : string)            (* [panic(msg)] *)
| RuntimeError (msg : string).          (* a run-time panic *)

(** A Go call returns, panics, or ends the process. *)
Inductive Outcome (A : Type) :=
| Ret (a : A) (w : World)
| Panicked (v : PanicValue) (w : World)
| Exited (w : World).
Arguments Ret {A} a w.
Arguments Panicked {A} v w.
Arguments Exited {A} w.

Definition Go (A : Type) : Type := World -> Outcome A.

Definition ret {A} (a : A) : Go A := fun w => Ret a w.

Definition bind {A B} (m : Go A) (k : A -> Go B) : Go B :=
  fun w =>
    match m w with
    | Ret a w' => k a w'
    | Panicked v w' => Panicked v w'
    | Exited w' => Exited w'
    end.

Definition panic {A} (v : PanicValue) : Go A := fun w => Panicked v w.
(** Modelled from the spec: [exit.Exit] (internal/exit) is not among the
    sources; it terminates the process. *)
Definition exit_Exit {A} : Go A := fun w => Exited w.

(** A call that always returns, as a computation. *)
Definition lift {A} (f : World -> A * World) : Go A :=
  fun w => let '(a, w') := f w in Ret a w'.

Definition modify (f : World -> World) : Go unit := fun w => Ret tt (f w).

#[global] Instance Go_ret : MRet Go := @ret.
#[global] Instance Go_bind : MBind Go := fun A B k m => bind m k.

(** ** Calls on the external collaborators *)

Definition time_Now (w : World) : Z * World :=
  (w_clock w (w_clockIdx w), set_clockIdx S w).

(** [ws.Write(p)]: the byte count is never used by the callers. *)
Definition ws_do_Write (ws : WriteSyncer) (p : Payload) (w : World)
  : error * World :=
  (ws_Write ws (w_trace w) p, emit (EvWrite (ws_id ws) p) w).

Definition ws_do_Sync (ws : WriteSyncer) (w : World) : error * World :=
  (ws_Sync ws (w_trace w), emit (EvSync (ws_id ws)) w).

(** [fmt.Fprintf(ws, ...)] followed by [ws.Sync()], both results dropped. *)
Definition report (ws : WriteSyncer) (d : Diag) (w : World) : World :=
  snd (ws_do_Sync ws (snd (ws_do_Write ws (PDiag d) w))).

(** ** entry.go: the pool of checked entries *)

(** The object [_cePool.New] builds.  Its four pre-allocated core slots are
    cut off by [reset] before anybody reads them, so they are left out. *)
Definition new_CheckedEntry : CheckedEntry :=
  {| ce_Entry := zero_Entry; ce_ErrorOutput := None; ce_dirty := false;
     ce_should := WriteThenNoop; ce_cores := [] |}.

Definition load_ce (l : loc) (w : World) : CheckedEntry :=
  default new_CheckedEntry (w_entries w !! l).

Definition store_ce (l : loc) (c : CheckedEntry) (w : World) : World :=
  set_entries (insert l c) w.

Definition reset (c : CheckedEntry) : CheckedEntry :=
  {| ce_Entry := zero_Entry; ce_ErrorOutput := None; ce_dirty := false;
     ce_should := WriteThenNoop; ce_cores := [] |}.

(** [_cePool.Get()]: hands out one of the pooled objects, or a new one. *)
Definition cePool_Get (w : World) : loc * World :=
  match i ← w_poolPick w (w_cePool w); l ← w_cePool w !! i; Some (i, l) with
  | Some (i, l) => (l, set_cePool (delete i) w)
  | None =>
      let l := fresh (dom (w_entries w)) in
      (l, store_ce l new_CheckedEntry w)
  end.

Definition getCheckedEntry (w : World) : loc * World :=
  let '(l, w1) := cePool_Get w in
  (l, store_ce l (reset (load_ce l w1)) w1).

Definition putCheckedEntry (ce : option loc) (w : World) : World :=
  match ce with
  | None => w
  | Some l => set_cePool (cons l) w
  end.

Definition with_Entry (ent : Entry) (c : CheckedEntry) : CheckedEntry :=
  {| ce_Entry := ent; ce_ErrorOutput := ce_ErrorOutput c;
     ce_dirty := ce_dirty c; ce_should := ce_should c;
     ce_cores := ce_cores c |}.

Definition with_ErrorOutput (eo : option WriteSyncer) (c : CheckedEntry)
  : CheckedEntry :=
  {| ce_Entry := ce_Entry c; ce_ErrorOutput := eo;
     ce_dirty := ce_dirty c; ce_should := ce_should c;
     ce_cores := ce_cores c |}.

Definition with_dirty (d : bool) (c : CheckedEntry) : CheckedEntry :=
  {| ce_Entry := ce_Entry c; ce_ErrorOutput := ce_ErrorOutput c;
     ce_dirty := d; ce_should := ce_should c; ce_cores := ce_cores c |}.

Definition with_should (s : CheckWriteAction) (c : CheckedEntry)
  : CheckedEntry :=
  {| ce_Entry := ce_Entry c; ce_ErrorOutput := ce_ErrorOutput c;
     ce_dirty := ce_dirty c; ce_should := s; ce_cores := ce_cores c |}.

Definition with_cores (cs : list Core) (c : CheckedEntry) : CheckedEntry :=
  {| ce_Entry := ce_Entry c; ce_ErrorOutput := ce_ErrorOutput c;
     ce_dirty := ce_dirty c; ce_should := ce_should c; ce_cores := cs |}.

(** Both [AddCore] and [Should] start by making a nil receiver point to a
    pooled entry stamped with [ent]. *)
Definition bootstrap (ce : option loc) (ent : Entry) (w : World)
  : loc * World :=
  match ce with
  | Some l => (l, w)
  | None =>
      let '(l, w1) := getCheckedEntry w in
      (l, store_ce l (with_Entry ent (load_ce l w1)) w1)
  end.

Definition AddCore (ce : option loc) (ent : Entry) (core : Core) (w : World)
  : loc * World :=
  let '(l, w1) := bootstrap ce ent w in
  let c := load_ce l w1 in
  (l, store_ce l (with_cores (ce_cores c ++ [core]) c) w1).

Definition Should (ce : option loc) (ent : Entry) (should : CheckWriteAction)
  (w : World) : loc * World :=
  let '(l, w1) := bootstrap ce ent w in
  (l, store_ce l (with_should should (load_ce l w1)) w1).

(** ** sampler.go: counters *)

Definition offset32 : Z := 2166136261.
Definition prime32 : Z := 16777619.

Fixpoint fnv32a_from (hash : Z) (s : string) : Z :=
  match s with
  | EmptyString => hash
  | String a s' =>
      fnv32a_from
        (wrap_uint32 (Z.lxor hash (Z.of_N (N_of_ascii a)) * prime32)) s'
  end.

Definition fnv32a (s : string) : Z := fnv32a_from offset32 s.

(** [cs.get(lvl, key)] returns the address of a cell: here, its indices. *)
Definition counters_get (lvl : Level) (key : string) : Z * Z :=
  let i := Level_to_Z lvl - Level_to_Z _minLevel in
  let j := fnv32a key mod _countersPerLevel in
  (i, j).

Definition counter_Inc (c : counter) : Z * counter :=
  let n := wrap_uint64 (counter_n c + 1) in
  (n, {| resetAt := resetAt c; counter_n := n |}).

Definition counter_Store (n : Z) (c : counter) : counter :=
  {| resetAt := resetAt c; counter_n := n |}.

Definition resetAt_CAS (old new : Z) (c : counter) : bool * counter :=
  if resetAt c =? old
  then (true, {| resetAt := new; counter_n := counter_n c |})
  else (false, c).

(** [IncCheckReset] run without interference from other goroutines. *)
Definition IncCheckReset (c : counter) (t : Z) (tick : Z) : Z * counter :=
  let tn := t in
  let resetAfter := resetAt c in
  if tn <? resetAfter then counter_Inc c
  else
    let c1 := counter_Store 1 c in
    let newResetAfter := wrap_int64 (tn + tick) in
    let '(swapped, c2) := resetAt_CAS resetAfter newResetAfter c1 in
    if negb swapped then counter_Inc c2 else (1, c2).

Definition load_table (tbl : loc) (w : World) : counters :=
  default ∅ (w_counters w !! tbl).

Definition load_counter (tbl : loc) (ix : Z * Z) (w : World) : counter :=
  default zero_counter (load_table tbl w !! ix).

Definition store_counter (tbl : loc) (ix : Z * Z) (c : counter) (w : World)
  : World :=
  set_counters (insert tbl (<[ix := c]> (load_table tbl w))) w.

(** [IncCheckReset] on the cell [ix] of the table at [tbl]. *)
Definition IncCheckReset_at (tbl : loc) (ix : Z * Z) (t tick : Z) (w : World)
  : Z * World :=
  let '(n, c) := IncCheckReset (load_counter tbl ix w) t tick in
  (n, store_counter tbl ix c w).

(** [a % b] on uint64: a run-time panic when [b] is zero. *)
Definition uint64_rem (a b : Z) : Go Z :=
  if b =? 0 then panic (RuntimeError "integer divide by zero")
  else mret (a mod b).

Definition newCounters (w : World) : loc * World :=
  let l := fresh (dom (w_counters w)) in
  (l, set_counters (insert l ∅) w).

Definition NewSampler (core : Core) (tick : Z) (first thereafter : Z)
  (w : World) : Core * World :=
  let '(l, w1) := newCounters w in
  (sampler core l tick (uint64_of_int first) (uint64_of_int thereafter), w1).

(** ** core.go, tee.go, sampler.go: the methods of a [Core] *)

Definition NewNopCore : Core := nopCore.

Definition NewCore (enc : Encoder) (ws : WriteSyncer) (enab : LevelEnabler)
  : Core := ioCore enab enc ws.

Fixpoint multiCore_Enabled (Enabled : Core -> bool) (mc : list Core) : bool :=
  match mc with
  | [] => false
  | m :: mc' => if Enabled m then true else multiCore_Enabled Enabled mc'
  end.

Fixpoint Core_Enabled (c : Core) (lvl : Level) : bool :=
  match c with
  | nopCore => false
  | ioCore enab _ _ => enab lvl
  | multiCore mc => multiCore_Enabled (fun m => Core_Enabled m lvl) mc
  | sampler core _ _ _ _ => Core_Enabled core lvl
  end.

Definition ioCore_With (enab : LevelEnabler) (enc : Encoder)
  (out : WriteSyncer) (fields : list Field) : Core :=
  ioCore enab (addFields (Encoder_Clone enc) fields) out.

Fixpoint Core_With (c : Core) (fields : list Field) : Core :=
  match c with
  | nopCore => nopCore
  | ioCore enab enc out => ioCore_With enab enc out fields
  | multiCore mc => multiCore (List.map (fun m => Core_With m fields) mc)
  | sampler core counts tick first thereafter =>
      sampler (Core_With core fields) counts tick first thereafter
  end.

Definition ioCore_Sync (out : WriteSyncer) (w : World) : error * World :=
  ws_do_Sync out w.

Definition ioCore_Write (enc : Encoder) (out : WriteSyncer) (ent : Entry)
  (fields : list Field) (w : World) : error * World :=
  let '(buf, err) := EncodeEntry enc ent fields in
  if negb (is_nil err) then (err, w)
  else
    let '(err, w1) := ws_do_Write out (PBytes buf) w in
    let w2 := emit (EvBufFree buf) w1 in
    if negb (is_nil err) then (err, w2)
    else
      let w3 := if Level_gtb (ent_Level ent) ErrorLevel
                then snd (ioCore_Sync out w2) else w2 in
      (nil_error, w3).

(** The loop [for i := range cores { err = multierr.Append(err, call(cores[i])) }]
    of [multiCore.Write], [multiCore.Sync] and [CheckedEntry.Write]. *)
Fixpoint each_core (call : Core -> World -> error * World)
  (mc : list Core) (err : error) (w : World) : error * World :=
  match mc with
  | [] => (err, w)
  | m :: mc' =>
      let '(e, w') := call m w in
      each_core call mc' (multierr.Append err e) w'
  end.

Fixpoint Core_Write (c : Core) (ent : Entry) (fields : list Field) (w : World)
  {struct c} : error * World :=
  match c with
  | nopCore => (nil_error, w)
  | ioCore _ enc out => ioCore_Write enc out ent fields w
  | multiCore mc =>
      each_core (fun m => Core_Write m ent fields) mc nil_error w
  | sampler core _ _ _ _ => Core_Write core ent fields w
  end.

Fixpoint Core_Sync (c : Core) (w : World) {struct c} : error * World :=
  match c with
  | nopCore => (nil_error, w)
  | ioCore _ _ out => ioCore_Sync out w
  | multiCore mc => each_core Core_Sync mc nil_error w
  | sampler core _ _ _ _ => Core_Sync core w
  end.

Fixpoint multiCore_Check (Check : Core -> option loc -> Go (option loc))
  (mc : list Core) (ce : option loc) : Go (option loc) :=
  match mc with
  | [] => mret ce
  | m :: mc' => ce' ← Check m ce; multiCore_Check Check mc' ce'
  end.

Fixpoint Core_Check (c : Core) (ent : Entry) (ce : option loc) {struct c}
  : Go (option loc) :=
  match c with
  | nopCore => mret ce
  | ioCore enab _ _ =>
      if enab (ent_Level ent)
      then lift (fun w => let '(l, w') := AddCore ce ent c w in (Some l, w'))
      else mret ce
  | multiCore mc => multiCore_Check (fun m => Core_Check m ent) mc ce
  | sampler core counts tick first thereafter =>
      if negb (Core_Enabled core (ent_Level ent)) then mret ce
      else
        n ← lift (IncCheckReset_at counts
                    (counters_get (ent_Level ent) (ent_Message ent))
                    (ent_Time ent) tick);
        drop ← (if first <? n
                then r ← uint64_rem (wrap_uint64 (n - first)) thereafter;
                     mret (negb (r =? 0))
                else mret false);
        if drop : bool then mret ce else Core_Check core ent ce
  end.

(** tee.go *)
Definition NewTee (cores : list Core) : Core :=
  match cores with
  | [] => NewNopCore
  | [c] => c
  | _ => multiCore cores
  end.

(** ** entry.go: [CheckedEntry.Write] *)

(** [if ce.ErrorOutput != nil { if err != nil { Fprintf(...); Sync() } }] *)
Definition report_write_error (eo : option WriteSyncer) (err : error)
  (w : World) : World :=
  match eo with
  | Some eo =>
      if negb (is_nil err)
      then let '(now, w') := time_Now w in
           report eo (DiagWriteError now err) w'
      else w
  | None => w
  end.

(** [if ce.ErrorOutput != nil { Fprintf(...); Sync() }] on a dirty entry. *)
Definition report_reuse (c : CheckedEntry) (w : World) : World :=
  match ce_ErrorOutput c with
  | Some eo =>
      let '(now, w1) := time_Now w in
      report eo (DiagReuse now (ce_Entry c)) w1
  | None => w
  end.

Definition CheckedEntry_Write (ce : option loc) (fields : list Field)
  : Go unit :=
  match ce with
  | None => mret tt
  | Some l => fun w =>
      let c := load_ce l w in
      if ce_dirty c then Ret tt (report_reuse c w)
      else
        let w1 := store_ce l (with_dirty true c) w in
        let '(err, w2) :=
          each_core (fun m => Core_Write m (ce_Entry c) fields)
            (ce_cores c) nil_error w1 in
        let w3 := report_write_error (ce_ErrorOutput c) err w2 in
        let should := ce_should (load_ce l w3) in
        let msg := ent_Message (ce_Entry (load_ce l w3)) in
        let w4 := putCheckedEntry (Some l) w3 in
        match should with
        | WriteThenPanic => panic (PanicString msg) w4
        | WriteThenFatal => exit_Exit w4
        | WriteThenNoop => Ret tt w4
        end
  end.

(** ** logger.go *)

Record Logger := {
  log_core : Core;
  log_development : bool;
  log_name : string;
  log_errorOutput : WriteSyncer;
  log_addCaller : bool;
  log_addStack : LevelEnabler;
  log_callerSkip : Z
}.

Definition with_Caller (ec : EntryCaller) (e : Entry) : Entry :=
  {| ent_Level := ent_Level e; ent_Time := ent_Time e;
     ent_LoggerName := ent_LoggerName e; ent_Message := ent_Message e;
     ent_Caller := ec; ent_Stack := ent_Stack e |}.

Definition with_Stack (s : string) (e : Entry) : Entry :=
  {| ent_Level := ent_Level e; ent_Time := ent_Time e;
     ent_LoggerName := ent_LoggerName e; ent_Message := ent_Message e;
     ent_Caller := ent_Caller e; ent_Stack := s |}.

Definition callerSkipOffset : Z := 2.

(** The part of [check] that follows [if !willWrite { return ce }]. *)
Definition annotate (log : Logger) (l : loc) (w : World) : World :=
  let w1 :=
    store_ce l (with_ErrorOutput (Some (log_errorOutput log)) (load_ce l w)) w in
  let w2 :=
    if log_addCaller log then
      let '(pc, file, line, ok) :=
        w_Caller w1 (log_callerSkip log + callerSkipOffset) in
      let c := load_ce l w1 in
      let caller := NewEntryCaller pc file line ok in
      let w' := store_ce l (with_Entry (with_Caller caller (ce_Entry c)) c) w1 in
      if negb (Defined_ caller) then
        let '(now, w'') := time_Now w' in
        report (log_errorOutput log) (DiagCallerFailed now) w''
      else w'
    else w1 in
  let c := load_ce l w2 in
  if log_addStack log (ent_Level (ce_Entry c))
  then store_ce l (with_Entry (with_Stack (w_Stack w2) (ce_Entry c)) c) w2
  else w2.

(** [ce.Should(ent, should)] as a step of [check]. *)
Definition check_Should (ce : option loc) (ent : Entry)
  (should : CheckWriteAction) (w : World) : option loc * World :=
  let '(l, w') := Should ce ent should w in (Some l, w').

Definition Logger_check (log : Logger) (lvl : Level) (msg : string)
  : Go (option loc) :=
  now ← lift time_Now;
  let ent := {| ent_Level := lvl; ent_Time := now;
                ent_LoggerName := log_name log; ent_Message := msg;
                ent_Caller := no_caller; ent_Stack := EmptyString |} in
  ce ← Core_Check (log_core log) ent None;
  let willWrite := bool_decide (ce ≠ None) in
  ce ← lift (match ent_Level ent with
             | PanicLevel => check_Should ce ent WriteThenPanic
             | FatalLevel => check_Should ce ent WriteThenFatal
             | DPanicLevel =>
                 if log_development log
                 then check_Should ce ent WriteThenPanic
                 else pair ce
             | _ => pair ce
             end);
  if negb willWrite then mret ce
  else
    match ce with
    | Some l => modify (annotate log l);; mret (Some l)
    | None => panic (RuntimeError "nil pointer dereference")
    end.

(** The body shared by [Debug], [Info], ..., [Fatal]. *)
Definition Logger_log (log : Logger) (lvl : Level) (msg : string)
  (fields : list Field) : Go unit :=
  ce ← Logger_check log lvl msg;
  if bool_decide (ce ≠ None) then CheckedEntry_Write ce fields else mret tt.

Definition Logger_Debug log := Logger_log log DebugLevel.
Definition Logger_Info log := Logger_log log InfoLevel.
Definition Logger_Warn log := Logger_log log WarnLevel.
Definition Logger_Error log := Logger_log log ErrorLevel.
Definition Logger_DPanic log := Logger_log log DPanicLevel.
Definition Logger_Panic log := Logger_log log PanicLevel.
Definition Logger_Fatal log := Logger_log log FatalLevel.

(** ** sink.go: the registry of sink factories *)

Module sink.

Definition schemeFile : string := "file".

(** A call either returns or dies with a run-time panic. *)
Inductive Result (A : Type) :=
| Returns (a : A)
| Panics (v : PanicValue).
Arguments Returns {A} a.
Arguments Panics {A} v.

(** [errors.New] and [fmt.Errorf]: the text is the format followed by its
    arguments. *)
Definition errors_New (text : string) : error := [text].
Definition fmt_Errorf (format : string) (args : list string) : error :=
  [String.concat " " (format :: args)].

(** A parsed locator, a [url.URL].  [Hostname] and [Port] hold what the
    methods [u.Hostname()] and [u.Port()] of net/url return. *)
Record URL := {
  Scheme : string;
  User : option string;
  Host : string;
  Path : string;
  RawQuery : string;
  Fragment : string;
  Hostname : string;
  Port : string
}.

Definition URL_String (u : URL) : string :=
  String.concat ":" [Scheme u; Host u; Path u; RawQuery u; Fragment u].

Inductive StdStream := Stdout | Stderr.

(** An open file of the process: a standard stream or a descriptor that
    [os.OpenFile] returned. *)
Inductive Handle :=
| HStd (s : StdStream)
| HFile (fd : nat).

#[global] Instance StdStream_eq_dec : EqDecision StdStream.
Proof. solve_decision. Defined.

#[global] Instance Handle_eq_dec : EqDecision Handle.
Proof. solve_decision. Defined.

(** The two implementations of [Sink] built here: [nopCloserSink] around a
    standard stream, and a plain [os.File] pointer. *)
Inductive Sink :=
| nopCloserSink (ws : StdStream)
| osFile (fd : nat).

(** The handles of the process that have been closed. *)
Definition Closed := list Handle.

(** [Close] of an [os.File]: closing twice is an error. *)
Definition File_Close (h : Handle) (closed : Closed) : error * Closed :=
  if bool_decide (h ∈ closed)
  then (errors_New "file already closed", closed)
  else (nil_error, h :: closed).

Definition Sink_Close (s : Sink) (closed : Closed) : error * Closed :=
  match s with
  | nopCloserSink _ => (nil_error, closed)
  | osFile fd => File_Close (HFile fd) closed
  end.

Inductive OpenFlag := O_WRONLY | O_APPEND | O_CREATE.

Definition byte_of (a : ascii) : Z := Z.of_N (N_of_ascii a).
Definition byte_in (lo hi : string) (c : ascii) : bool :=
  match lo, hi with
  | String l EmptyString, String h EmptyString =>
      (byte_of l <=? byte_of c) && (byte_of c <=? byte_of h)
  | _, _ => false
  end.
Definition byte_is (x : string) (c : ascii) : bool := byte_in x x c.

Fixpoint all_bytes (p : ascii -> bool) (s : string) : bool :=
  match s with
  | EmptyString => true
  | String c s' => p c && all_bytes p s'
  end.

Fixpoint map_bytes (f : ascii -> ascii) (s : string) : string :=
  match s with
  | EmptyString => EmptyString
  | String c s' => String (f c) (map_bytes f s')
  end.

Definition RuneSelf : Z := 128.

Definition lower_byte (c : ascii) : ascii :=
  if byte_in "A" "Z" c
  then ascii_of_N (Z.to_N (byte_of c + (byte_of "a" - byte_of "A")))
  else c.

Section Registry.

(** [strings.Map(unicode.ToLower, s)], the path [strings.ToLower] takes
    for a string with a byte outside ASCII. *)
Variable Map_unicode_ToLower : string -> string.

(** [os.OpenFile(name, flag, perm)]: a descriptor, or an error. *)
Variable os_OpenFile : string -> list OpenFlag -> Z -> nat * error.

Definition strings_ToLower (s : string) : string :=
  if all_bytes (fun c => byte_of c <? RuneSelf) s
  then map_bytes lower_byte s
  else Map_unicode_ToLower s.

(** The loop of [normalizeScheme] over the bytes after the first; [s] is the
    lowercased scheme it returns. *)
Fixpoint normalizeScheme_rest (s : string) (r : string)
  : Result (string * error) :=
  match r with
  | EmptyString => Returns (s, nil_error)
  | String c r' =>
      if byte_in "a" "z" c then normalizeScheme_rest s r'
      else if byte_in "0" "9" c then normalizeScheme_rest s r'
      else if byte_is "." c || byte_is "+" c || byte_is "-" c
           then normalizeScheme_rest s r'
      else Returns (EmptyString,
                    fmt_Errorf "may not contain %q" [String c EmptyString])
  end.

Definition normalizeScheme (s : string) : Result (string * error) :=
  let s := strings_ToLower s in
  match s with
  | EmptyString => Panics (RuntimeError "index out of range")
  | String first rest =>
      if (byte_of first <? byte_of "a") || (byte_of "z" <? byte_of first)
      then Returns (EmptyString, errors_New "must start with a letter")
      else normalizeScheme_rest s rest
  end.

Definition Factory := URL -> option Sink * error.

Definition newFileSink (u : URL) : option Sink * error :=
  if bool_decide (User u ≠ None) then
    (None, fmt_Errorf "user and password not allowed with file URLs: got %v"
             [URL_String u])
  else if bool_decide (Fragment u ≠ EmptyString) then
    (None, fmt_Errorf "fragments not allowed with file URLs: got %v"
             [URL_String u])
  else if bool_decide (RawQuery u ≠ EmptyString) then
    (None, fmt_Errorf "query parameters not allowed with file URLs: got %v"
             [URL_String u])
  else if bool_decide (Port u ≠ EmptyString) then
    (None, fmt_Errorf "ports not allowed with file URLs: got %v"
             [URL_String u])
  else if bool_decide (Hostname u ≠ EmptyString)
          && bool_decide (Hostname u ≠ "localhost") then
    (None,
     fmt_Errorf "file URLs must leave host empty or use localhost: got %v"
       [URL_String u])
  else if bool_decide (Path u = "stdout") then
    (Some (nopCloserSink Stdout), nil_error)
  else if bool_decide (Path u = "stderr") then
    (Some (nopCloserSink Stderr), nil_error)
  else
    let '(fd, err) :=
      os_OpenFile (Path u) [O_WRONLY; O_APPEND; O_CREATE] 420 in
    (Some (osFile fd), err).

(** The value [resetSinkRegistry] gives [_sinkFactories]. *)
Definition resetSinkRegistry : gmap string Factory :=
  {[ schemeFile := newFileSink ]}.

Definition RegisterSink (scheme : string) (factory : Factory)
  (_sinkFactories : gmap string Factory)
  : Result (error * gmap string Factory) :=
  if bool_decide (scheme = EmptyString) then
    Returns (errors_New "can't register a sink factory for empty string",
             _sinkFactories)
  else
    match normalizeScheme scheme with
    | Panics v => Panics v
    | Returns (normalized, err) =>
        if negb (is_nil err) then
          Returns (fmt_Errorf "%q is not a valid scheme: %v" (scheme :: err),
                   _sinkFactories)
        else
          match _sinkFactories !! normalized with
          | Some _ =>
              Returns (fmt_Errorf
                         "sink factory already registered for scheme %q"
                         [normalized],
                       _sinkFactories)
          | None =>
              Returns (nil_error, <[normalized := factory]> _sinkFactories)
          end
    end.

End Registry.

(** *** The scheme syntax and the file locators, in the words of the spec *)

Definition is_letter (c : ascii) : bool :=
  byte_in "a" "z" c || byte_in "A" "Z" c.

Definition is_digit (c : ascii) : bool := byte_in "0" "9" c.

Definition scheme_char (c : ascii) : bool :=
  is_letter c || is_digit c || byte_is "." c || byte_is "+" c
  || byte_is "-" c.

(** A letter first, then letters, digits, [.], [+] and [-]. *)
Definition valid_scheme (s : string) : bool :=
  match s with
  | EmptyString => false
  | String first rest => is_letter first && all_bytes scheme_char rest
  end.

Definition no_upper (s : string) : bool :=
  all_bytes (fun c => negb (byte_in "A" "Z" c)) s.

(** A registration goes through when the scheme is not empty, its lowercased
    form is a valid scheme, and no factory is registered under it. *)
Definition registration_accepted (ToLower : string -> string)
  (scheme : string) (registered : gmap string Factory) : bool :=
  negb (bool_decide (scheme = EmptyString))
  && valid_scheme (strings_ToLower ToLower scheme)
  && bool_decide (registered !! strings_ToLower ToLower scheme = None).

(** The locators the file factory refuses: user-info, a fragment, a query
    string, a port, or a host other than localhost. *)
Definition file_locator_rejected (u : URL) : bool :=
  bool_decide (User u ≠ None)
  || bool_decide (Fragment u ≠ EmptyString)
  || bool_decide (RawQuery u ≠ EmptyString)
  || bool_decide (Port u ≠ EmptyString)
  || (bool_decide (Hostname u ≠ EmptyString)
      && bool_decide (Hostname u ≠ "localhost")).

(** Bytewise lowercasing of the ASCII letters, as a stand-in for the Unicode
    mapping in examples. *)
Definition ascii_ToLower (s : string) : string := map_bytes lower_byte s.

Definition no_OpenFile (name : string) (flag : list OpenFlag) (perm : Z)
  : nat * error := (0%nat, errors_New "open: permission denied").

Definition sample_Factory : Factory :=
  fun _ => (Some (nopCloserSink Stderr), nil_error).

End sink.

(** ** The vocabulary of the properties *)

Definition add_events (evs : list Event) (w : World) : World :=
  set_trace (fun t => t ++ evs) w.

(** Calling [call] on every member in turn, whatever each one returns: the
    error of each member and the world they leave. *)
Fixpoint run_members (call : Core -> World -> error * World)
  (ms : list Core) (w : World) : list error * World :=
  match ms with
  | [] => ([], w)
  | m :: ms' =>
      let '(e, w1) := call m w in
      let '(es, w2) := run_members call ms' w1 in
      (e :: es, w2)
  end.

(** The world an outcome leaves behind. *)
Definition outcome_world {A} (o : Outcome A) : World :=
  match o with
  | Ret _ w => w
  | Panicked _ w => w
  | Exited w => w
  end.

(** The counter tables a core points to, its own and those of the cores it
    wraps.  [NewSampler] gives every sampler a new table and [With] keeps it,
    so the table of a sampler is never one of the tables below it. *)
Fixpoint tables (c : Core) : list loc :=
  match c with
  | nopCore => []
  | ioCore _ _ _ => []
  | multiCore mc => concat (List.map tables mc)
  | sampler core counts _ _ _ => counts :: tables core
  end.

(** No sampler of the core has a zero [thereafter]. *)
Fixpoint thereafter_nonzero (c : Core) : bool :=
  match c with
  | nopCore => true
  | ioCore _ _ _ => true
  | multiCore mc => forallb thereafter_nonzero mc
  | sampler core _ _ _ thereafter =>
      negb (thereafter =? 0) && thereafter_nonzero core
  end.

(** Successive [Check] calls on one core, each with its entry and the checked
    entry it is given; the results in call order. *)
Fixpoint Check_each (c : Core) (calls : list (Entry * option loc))
  : Go (list (option loc)) :=
  match calls with
  | [] => mret []
  | (e, ce) :: rest =>
      r ← Core_Check c e ce;
      rs ← Check_each c rest;
      mret (r :: rs)
  end.

(** The sampling rule as the specification words it, for the [n]th
    occurrence. *)
Definition admitted (F M n : Z) : bool :=
  (n <=? F) || ((n - F) mod M =? 0).

(** The sampler as the specification words it: the occurrences of one
    window are numbered from [n]; each one leaves its number in the bucket [ix] of the
    table [tbl], whose deadline stays [d], and is handed to the inner core
    exactly when the rule admits its number; a dropped occurrence gets back
    the checked entry it came with. *)
Fixpoint Check_sampled (inner : Core) (tbl : loc) (ix : Z * Z) (d F M n : Z)
  (calls : list (Entry * option loc)) : Go (list (option loc)) :=
  match calls with
  | [] => mret []
  | (e, ce) :: rest =>
      modify (store_counter tbl ix {| resetAt := d; counter_n := n |});;
      r ← (if admitted F M n then Core_Check inner e ce else mret ce);
      rs ← Check_sampled inner tbl ix d F M (n + 1) rest;
      mret (r :: rs)
  end.

(** ** Sample values *)

Definition empty_World : World :=
  {| w_trace := []; w_counters := ∅; w_entries := ∅; w_cePool := [];
     w_poolPick := fun _ => None; w_clock := fun i => Z.of_nat i;
     w_clockIdx := 0%nat;
     w_Caller := fun _ => (0, EmptyString, 0, false);
     w_Stack := EmptyString |}.

(** A destination that accepts everything, and one that fails every write. *)
Definition good_ws (id : nat) : WriteSyncer :=
  {| ws_id := id; ws_Write := fun _ _ => nil_error;
     ws_Sync := fun _ => nil_error |}.

Definition bad_ws (id : nat) : WriteSyncer :=
  {| ws_id := id; ws_Write := fun _ _ => ["write failed"%string];
     ws_Sync := fun _ => ["sync failed"%string] |}.

(** An encoder that writes the message text. *)
Definition message_Encoder : Encoder :=
  {| enc_context := [];
     enc_EncodeEntry := fun _ ent _ =>
       (List.map byte_of_ascii (list_ascii_of_string (ent_Message ent)),
        nil_error) |}.

Definition sample_core (id : nat) : Core :=
  NewCore message_Encoder (good_ws id) (fun _ => true).

(** The address of a counter table. *)
Definition tbl1 : loc := 1%positive.

Definition sample_Entry (lvl : Level) (t : Z) (msg : string) : Entry :=
  {| ent_Level := lvl; ent_Time := t; ent_LoggerName := EmptyString;
     ent_Message := msg; ent_Caller := no_caller; ent_Stack := EmptyString |}.

(** The count a sampler on the table [tbl] draws for [ent] in the world
    [w]: what [IncCheckReset] returns on the entry's bucket. *)
Definition next_count (tbl : loc) (T : Z) (ent : Entry) (w : World) : Z :=
  fst (IncCheckReset
         (load_counter tbl (counters_get (ent_Level ent) (ent_Message ent)) w)
         (ent_Time ent) T).

(** The terminal action [Logger.check] asks for at a level. *)
Definition terminal_action (log : Logger) (lvl : Level) : CheckWriteAction :=
  match lvl with
  | PanicLevel => WriteThenPanic
  | FatalLevel => WriteThenFatal
  | DPanicLevel =>
      if log_development log then WriteThenPanic else WriteThenNoop
  | _ => WriteThenNoop
  end.

(** How a call ends after the action [a], with panic message [msg]. *)
Definition finish (a : CheckWriteAction) (msg : string) (w : World)
  : Outcome unit :=
  match a with
  | WriteThenPanic => Panicked (PanicString msg) w
  | WriteThenFatal => Exited w
  | WriteThenNoop => Ret tt w
  end.

Definition sample_Logger (c : Core) : Logger :=
  {| log_core := c; log_development := false; log_name := EmptyString;
     log_errorOutput := good_ws 9; log_addCaller := false;
     log_addStack := fun _ => false; log_callerSkip := 0 |}.

(** What a core's [Check] hands on: nil, or a clean entry stamped with
    [ent] that asks for no terminal action yet. *)
Definition handle_ok (ent : Entry) (ce : option loc) (w : World) : Prop :=
  match ce with
  | None => True
  | Some l =>
      ce_dirty (load_ce l w) = false /\
      ce_Entry (load_ce l w) = ent /\
      ce_should (load_ce l w) = WriteThenNoop
  end.

(** A core's [Check] leaves every counter table alone but its own ones. *)
Definition Check_keeps (tbl : loc) (c : Core) : Prop :=
  forall ent ce w,
    w_counters (outcome_world (Core_Check c ent ce w)) !! tbl
    = w_counters w !! tbl.

(** The [Check] of a core without a zero [thereafter] returns, and hands on a
    clean entry (or nil) when it was given one. *)
Definition Check_returns (c : Core) : Prop :=
  forall ent ce w,
    handle_ok ent ce w ->
    exists r w', Core_Check c ent ce w = Ret r w' /\ handle_ok ent r w'.

(** ** More vocabulary: destinations, leaves, events *)

(** The destinations a core reaches, by identity, in the order of its
    members. *)
Fixpoint outs (c : Core) : list nat :=
  match c with
  | nopCore => []
  | ioCore _ _ out => [ws_id out]
  | multiCore mc => concat (List.map outs mc)
  | sampler core _ _ _ _ => outs core
  end.

(** The core has no sampler in it. *)
Fixpoint sampler_free (c : Core) : bool :=
  match c with
  | nopCore => true
  | ioCore _ _ _ => true
  | multiCore mc => forallb sampler_free mc
  | sampler _ _ _ _ _ => false
  end.

(** The single-destination cores of a core that are enabled at a level, in
    the order of its members. *)
Fixpoint agreeing (c : Core) (lvl : Level) : list Core :=
  match c with
  | nopCore => []
  | ioCore enab _ _ => if enab lvl then [c] else []
  | multiCore mc => concat (List.map (fun m => agreeing m lvl) mc)
  | sampler core _ _ _ _ => agreeing core lvl
  end.

(** An event a core's [Write] or [Sync] may cause on the destinations [ids]:
    a write of encoded bytes or a flush there, or the release of a buffer;
    never a diagnostic. *)
Definition core_event (ids : list nat) (e : Event) : Prop :=
  match e with
  | EvWrite id (PBytes _) => id ∈ ids
  | EvWrite _ (PDiag _) => False
  | EvSync id => id ∈ ids
  | EvBufFree _ => True
  end.

(** The cores a checked entry has collected so far; none for nil. *)
Definition collected (ce : option loc) (w : World) : list Core :=
  match ce with
  | None => []
  | Some l => ce_cores (load_ce l w)
  end.

(** ** logger.go: the other methods of a [Logger] *)

Definition with_name (n : string) (log : Logger) : Logger :=
  {| log_core := log_core log; log_development := log_development log;
     log_name := n; log_errorOutput := log_errorOutput log;
     log_addCaller := log_addCaller log; log_addStack := log_addStack log;
     log_callerSkip := log_callerSkip log |}.

Definition with_core (c : Core) (log : Logger) : Logger :=
  {| log_core := c; log_development := log_development log;
     log_name := log_name log; log_errorOutput := log_errorOutput log;
     log_addCaller := log_addCaller log; log_addStack := log_addStack log;
     log_callerSkip := log_callerSkip log |}.

(** [strings.Join([]string{a, b}, sep)]. *)
Definition strings_Join2 (a b sep : string) : string :=
  (a ++ sep ++ b)%string.

Definition Logger_Named (log : Logger) (s : string) : Logger :=
  if bool_decide (s = EmptyString) then log
  else if bool_decide (log_name log = EmptyString) then with_name s log
  else with_name (strings_Join2 (log_name log) s ".") log.

Definition Logger_With (log : Logger) (fields : list Field) : Logger :=
  if bool_decide (length fields = 0%nat) then log
  else with_core (Core_With (log_core log) fields) log.

Definition Logger_Sync (log : Logger) (w : World) : error * World :=
  Core_Sync (log_core log) w.

Definition Logger_Core (log : Logger) : Core := log_core log.

Definition Logger_Check (log : Logger) (lvl : Level) (msg : string)
  : Go (option loc) := Logger_check log lvl msg.

(** [ioutil.Discard] behind [zapcore.AddSync]: it accepts every write and
    flush. *)
Definition Discard : WriteSyncer :=
  {| ws_id := 0%nat; ws_Write := fun _ _ => nil_error;
     ws_Sync := fun _ => nil_error |}.

(** [zapcore.FatalLevel + 1] used as a [LevelEnabler]: a level enables the
    levels at or above it, so this one enables none of the seven. *)
Definition above_FatalLevel : LevelEnabler :=
  fun lvl => Level_to_Z FatalLevel + 1 <=? Level_to_Z lvl.

Definition NewNop : Logger :=
  {| log_core := NewNopCore; log_development := false;
     log_name := EmptyString; log_errorOutput := Discard;
     log_addCaller := false; log_addStack := above_FatalLevel;
     log_callerSkip := 0 |}.

(** ** entry.go: [EntryCaller] *)

(** [strings.LastIndexByte]: the index of the last [c] in [s], or -1. *)
Fixpoint LastIndexByte (s : string) (c : ascii) : Z :=
  match s with
  | EmptyString => -1
  | String a s' =>
      let i := LastIndexByte s' c in
      if 0 <=? i then i + 1
      else if Ascii.eqb a c then 0 else -1
  end.

(** The slices [s[:i]] and [s[i:]] for an index within the string. *)
Definition slice_to (s : string) (i : Z) : string :=
  String.substring 0 (Z.to_nat i) s.

Definition slice_from (s : string) (i : Z) : string :=
  String.substring (Z.to_nat i) (String.length s - Z.to_nat i) s.

Section EntryCaller_methods.

(** [buf.AppendInt]: the decimal text of an int64 (internal/buffer is not
    among the sources). *)
Variable AppendInt : Z -> string.

Definition EntryCaller_FullPath (ec : EntryCaller) : string :=
  if negb (Defined_ ec) then "undefined"%string
  else (File ec ++ ":" ++ AppendInt (Line ec))%string.

Definition EntryCaller_String (ec : EntryCaller) : string :=
  EntryCaller_FullPath ec.

Definition EntryCaller_TrimmedPath (ec : EntryCaller) : string :=
  if negb (Defined_ ec) then "undefined"%string
  else
    let idx := LastIndexByte (File ec) "/" in
    if idx =? -1 then EntryCaller_FullPath ec
    else
      let idx := LastIndexByte (slice_to (File ec) idx) "/" in
      if idx =? -1 then EntryCaller_FullPath ec
      else (slice_from (File ec) (idx + 1) ++ ":"
            ++ AppendInt (Line ec))%string.

End EntryCaller_methods.

(** ** sink.go: resolving a locator *)

Section Resolve.
Import sink.

(** [url.Parse]: the parsed locator and an error. *)
Variable url_Parse : string -> URL * error.

Definition with_Scheme (scheme : string) (u : URL) : URL :=
  {| Scheme := scheme; User := User u; Host := Host u; Path := Path u;
     RawQuery := RawQuery u; Fragment := Fragment u;
     Hostname := Hostname u; Port := Port u |}.

(** The error value [&errSinkNotFound{scheme}], by its [Error()] text. *)
Definition errSinkNotFound (scheme : string) : error :=
  fmt_Errorf "no sink found for scheme %q" [scheme].

Definition newSink (rawURL : string) (_sinkFactories : gmap string Factory)
  : option Sink * error :=
  let '(u, err) := url_Parse rawURL in
  if negb (is_nil err) then
    (None, fmt_Errorf "can't parse %q as a URL: %v" (rawURL :: err))
  else
    let u := if bool_decide (Scheme u = EmptyString)
             then with_Scheme schemeFile u else u in
    match _sinkFactories !! Scheme u with
    | None => (None, errSinkNotFound (Scheme u))
    | Some factory => factory u
    end.

End Resolve.

(** A parse that reads a bare path: no scheme and nothing else. *)
Definition parse_as_path (raw : string) : sink.URL * error :=
  ({| sink.Scheme := EmptyString; sink.User := None;
      sink.Host := EmptyString; sink.Path := raw;
      sink.RawQuery := EmptyString; sink.Fragment := EmptyString;
      sink.Hostname := EmptyString; sink.Port := EmptyString |}, nil_error).

(** A parse that reads [memory://x]. *)
Definition parse_memory (raw : string) : sink.URL * error :=
  ({| sink.Scheme := "memory"; sink.User := None;
      sink.Host := "x"; sink.Path := EmptyString;
      sink.RawQuery := EmptyString; sink.Fragment := EmptyString;
      sink.Hostname := "x"; sink.Port := EmptyString |}, nil_error).

(** A segment of a logger name that counts. *)
Definition nonempty (s : string) : bool :=
  negb (bool_decide (s = EmptyString)).

(** A file name or directory name: a string without the separator. *)
Definition no_slash (s : string) : bool :=
  sink.all_bytes (fun c => negb (Ascii.eqb c "/")) s.

(** * Properties *)

(** ** Worlds and traces *)

Lemma add_events_nil w : add_events [] w = w.
Proof. destruct w; unfold add_events, set_trace; simpl. by rewrite app_nil_r. Qed.

Lemma add_events_app evs1 evs2 w :
  add_events evs2 (add_events evs1 w) = add_events (evs1 ++ evs2) w.
Proof. unfold add_events, set_trace; simpl. by rewrite app_assoc. Qed.

Lemma emit_add_events e w : emit e w = add_events [e] w.
Proof. reflexivity. Qed.

Lemma Append_app (l r : error) : multierr.Append l r = l ++ r.
Proof. destruct l, r; simpl; rewrite ?app_nil_r; reflexivity. Qed.

Lemma is_nil_true (e : error) : is_nil e = true <-> e = [].
Proof. destruct e; simpl; split; congruence. Qed.

Lemma each_core_run_members call ms err w :
  each_core call ms err w =
  let '(es, w') := run_members call ms w in (err ++ concat es, w').
Proof.
  revert err w. induction ms as [|m ms IH]; intros err w; simpl.
  - by rewrite app_nil_r.
  - destruct (call m w) as [e w1]. rewrite IH, Append_app.
    destruct (run_members call ms w1) as [es w2]. simpl.
    by rewrite app_assoc.
Qed.

Lemma concat_nil_Forall (es : list error) :
  concat es = [] <-> Forall (fun e => e = []) es.
Proof.
  induction es as [|e es IH]; simpl.
  - split; [constructor | reflexivity].
  - split.
    + intros H. apply app_eq_nil in H as [-> H]. constructor; [done | by apply IH].
    + intros H. inversion H; subst. simpl. by apply IH.
Qed.

Lemma multiCore_Enabled_exists (Enabled : Core -> bool) ms :
  multiCore_Enabled Enabled ms = true <-> exists m, m ∈ ms /\ Enabled m = true.
Proof.
  induction ms as [|m ms IH]; simpl.
  - split; [discriminate | intros (m & Hm & _); by apply elem_of_nil in Hm].
  - destruct (Enabled m) eqn:Hen.
    + split; [intros _; exists m; split; [left | done] | done].
    + rewrite IH. split; intros (m' & Hin & Hm').
      * exists m'. split; [by right | done].
      * apply elem_of_cons in Hin as [-> | Hin]; [congruence | eauto].
Qed.

(** ** The single-destination core *)

(** C5: [ioCore.Write] encodes the entry with the bound encoder.  When the
    encoder reports an error nothing reaches the destination and that error
    is returned.  Otherwise the bytes are written and the buffer is released
    whatever the write returned; a write error is returned and nothing is
    flushed; after a successful write the destination is flushed exactly when
    the level is above Error, the result of the flush is dropped, and the
    call returns no error. *)
Theorem ioCore_Write_behaviour (enab : LevelEnabler) (enc : Encoder)
  (out : WriteSyncer) (ent : Entry) (fields : list Field) (w : World) :
  let buf := fst (EncodeEntry enc ent fields) in
  let encErr := snd (EncodeEntry enc ent fields) in
  let writeErr := ws_Write out (w_trace w) (PBytes buf) in
  let written := [EvWrite (ws_id out) (PBytes buf); EvBufFree buf] in
  Core_Write (ioCore enab enc out) ent fields w =
    if negb (is_nil encErr) then (encErr, w)
    else if negb (is_nil writeErr) then (writeErr, add_events written w)
    else if Level_gtb (ent_Level ent) ErrorLevel
         then (nil_error, add_events (written ++ [EvSync (ws_id out)]) w)
         else (nil_error, add_events written w).
Proof.
  cbv zeta. unfold Core_Write, ioCore_Write, ioCore_Sync, ws_do_Write, ws_do_Sync.
  destruct (EncodeEntry enc ent fields) as [buf encErr]; cbn [fst snd].
  destruct (is_nil encErr); cbn [negb]; [|reflexivity].
  rewrite !emit_add_events, add_events_app.
  destruct (is_nil (ws_Write out (w_trace w) (PBytes buf))); cbn [negb];
    [|reflexivity].
  destruct (Level_gtb (ent_Level ent) ErrorLevel); [|reflexivity].
  cbn [snd]. by rewrite !add_events_app.
Qed.

(** ** The tee *)

(** C6: [NewTee] of no core is the no-op core (never enabled, [Check] hands
    back the checked entry it was given, [Write] and [Sync] succeed and do
    nothing, [With] is the core itself); of one core it is that core; of two
    or more it is the [multiCore] over the given sequence. *)
Theorem NewTee_cases :
  NewTee [] = NewNopCore /\
  (forall lvl, Core_Enabled (NewTee []) lvl = false) /\
  (forall fields, Core_With (NewTee []) fields = NewTee []) /\
  (forall ent ce w, Core_Check (NewTee []) ent ce w = Ret ce w) /\
  (forall ent fields w, Core_Write (NewTee []) ent fields w = (nil_error, w)) /\
  (forall w, Core_Sync (NewTee []) w = (nil_error, w)) /\
  (forall c, NewTee [c] = c) /\
  (forall c1 c2 cs, NewTee (c1 :: c2 :: cs) = multiCore (c1 :: c2 :: cs)).
Proof. repeat split. Qed.

(** C7: [Write] and [Sync] of a [multiCore] call every member in order, each
    on the world the previous one left and whatever the previous ones
    returned, and return all the members' errors combined: no error exactly
    when every member returned none.  [Enabled] is true exactly when some
    member is enabled. *)
Theorem multiCore_aggregates (ms : list Core) (ent : Entry)
  (fields : list Field) (lvl : Level) (w : World) :
  let written := run_members (fun m => Core_Write m ent fields) ms w in
  let synced := run_members Core_Sync ms w in
  Core_Write (multiCore ms) ent fields w = (concat (fst written), snd written) /\
  Core_Sync (multiCore ms) w = (concat (fst synced), snd synced) /\
  (fst (Core_Write (multiCore ms) ent fields w) = nil_error <->
   Forall (fun e => e = nil_error) (fst written)) /\
  (fst (Core_Sync (multiCore ms) w) = nil_error <->
   Forall (fun e => e = nil_error) (fst synced)) /\
  (Core_Enabled (multiCore ms) lvl = true <->
   exists m, m ∈ ms /\ Core_Enabled m lvl = true).
Proof.
  simpl. rewrite !each_core_run_members.
  destruct (run_members _ ms w) as [es1 w1].
  destruct (run_members Core_Sync ms w) as [es2 w2]. simpl.
  repeat split; try apply concat_nil_Forall.
  - apply multiCore_Enabled_exists.
  - apply (multiCore_Enabled_exists (fun m => Core_Enabled m lvl)).
Qed.

(** ** Induction on cores *)

Section Core_induction.
Variable P : Core -> Prop.
Hypothesis P_nop : P nopCore.
Hypothesis P_io : forall enab enc out, P (ioCore enab enc out).
Hypothesis P_multi : forall mc, Forall P mc -> P (multiCore mc).
Hypothesis P_sampler : forall core counts tick first thereafter,
  P core -> P (sampler core counts tick first thereafter).

Lemma Core_nested_ind (c : Core) : P c.
Proof.
  revert c. fix IH 1.
  intros [| enab enc out | mc | core counts tick first thereafter].
  - exact P_nop.
  - apply P_io.
  - apply P_multi. induction mc as [|m mc IHmc].
    + apply List.Forall_nil.
    + apply List.Forall_cons; [apply IH | exact IHmc].
  - apply P_sampler, IH.
Qed.
End Core_induction.

(** ** The sampler *)

Ltac unfold_M :=
  unfold mbind, Go_bind, bind, mret, Go_ret, ret, lift, modify, panic,
    exit_Exit in *.

(** One [Check] of a sampler whose inner core admits the level: the bucket
    is charged first, then the count decides. *)
Lemma sampler_Check_step inner tbl T F M ent ce w :
  Core_Enabled inner (ent_Level ent) = true ->
  let ix := counters_get (ent_Level ent) (ent_Message ent) in
  let n := fst (IncCheckReset (load_counter tbl ix w) (ent_Time ent) T) in
  let c := snd (IncCheckReset (load_counter tbl ix w) (ent_Time ent) T) in
  let w' := store_counter tbl ix c w in
  Core_Check (sampler inner tbl T F M) ent ce w =
    if F <? n then
      if M =? 0 then Panicked (RuntimeError "integer divide by zero") w'
      else if wrap_uint64 (n - F) mod M =? 0
           then Core_Check inner ent ce w' else Ret ce w'
    else Core_Check inner ent ce w'.
Proof.
  intros Hen. cbn zeta. cbn [Core_Check]. rewrite Hen. cbn [negb].
  unfold_M. unfold IncCheckReset_at, uint64_rem.
  destruct (IncCheckReset _ _ _) as [n c]. cbn [fst snd].
  destruct (F <? n); [|reflexivity].
  unfold_M. destruct (M =? 0); [reflexivity|].
  by destruct (_ =? 0).
Qed.

Lemma wrap_uint64_small z : 0 <= z < 2 ^ 64 -> wrap_uint64 z = z.
Proof. intros. unfold wrap_uint64. by apply Z.mod_small. Qed.


(** Before the deadline the count goes up by one and the deadline stays. *)
Lemma IncCheckReset_before c t T :
  t < resetAt c ->
  IncCheckReset c t T =
    (wrap_uint64 (counter_n c + 1),
     {| resetAt := resetAt c; counter_n := wrap_uint64 (counter_n c + 1) |}).
Proof.
  intros Hlt. unfold IncCheckReset.
  destruct (Z.ltb_spec t (resetAt c)); [reflexivity | lia].
Qed.

(** At or past the deadline the count restarts at one and the deadline moves
    one tick past the timestamp. *)
Lemma IncCheckReset_after c t T :
  resetAt c <= t ->
  IncCheckReset c t T =
    (1, {| resetAt := wrap_int64 (t + T); counter_n := 1 |}).
Proof.
  intros Hle. unfold IncCheckReset, resetAt_CAS, counter_Store.
  destruct (Z.ltb_spec t (resetAt c)); [lia|].
  cbn [resetAt counter_n]. by rewrite Z.eqb_refl.
Qed.

Lemma load_store_counter tbl ix c w :
  load_counter tbl ix (store_counter tbl ix c w) = c.
Proof.
  unfold load_counter, load_table, store_counter, set_counters; simpl.
  rewrite lookup_insert_eq; simpl. by rewrite lookup_insert_eq.
Qed.

Lemma store_counter_other tbl tbl' ix c w :
  tbl ≠ tbl' ->
  w_counters (store_counter tbl ix c w) !! tbl' = w_counters w !! tbl'.
Proof.
  intros Hne. unfold store_counter, set_counters; simpl.
  by rewrite lookup_insert_ne.
Qed.

(** *** What a [Check] leaves alone *)

Lemma cePool_Get_counters w :
  w_counters (snd (cePool_Get w)) = w_counters w.
Proof.
  unfold cePool_Get.
  destruct (_ ≫= _) as [[i l]|]; reflexivity.
Qed.

Lemma getCheckedEntry_counters w :
  w_counters (snd (getCheckedEntry w)) = w_counters w.
Proof.
  unfold getCheckedEntry. pose proof (cePool_Get_counters w) as H.
  destruct (cePool_Get w) as [l w1]. exact H.
Qed.

Lemma bootstrap_counters ce ent w :
  w_counters (snd (bootstrap ce ent w)) = w_counters w.
Proof.
  destruct ce as [l|]; simpl; [reflexivity|].
  pose proof (getCheckedEntry_counters w) as H.
  destruct (getCheckedEntry w) as [l w1]. exact H.
Qed.

Lemma AddCore_counters ce ent c w :
  w_counters (snd (AddCore ce ent c w)) = w_counters w.
Proof.
  unfold AddCore. pose proof (bootstrap_counters ce ent w) as H.
  destruct (bootstrap ce ent w) as [l w1]. exact H.
Qed.

Lemma Should_counters ce ent a w :
  w_counters (snd (Should ce ent a w)) = w_counters w.
Proof.
  unfold Should. pose proof (bootstrap_counters ce ent w) as H.
  destruct (bootstrap ce ent w) as [l w1]. exact H.
Qed.

Lemma multiCore_Check_keeps tbl ent mc :
  Forall (fun m => tbl ∉ tables m -> Check_keeps tbl m) mc ->
  tbl ∉ concat (List.map tables mc) ->
  forall ce w,
    w_counters
      (outcome_world (multiCore_Check (fun m => Core_Check m ent) mc ce w))
      !! tbl
    = w_counters w !! tbl.
Proof.
  induction 1 as [|m mc Hm _ IH]; intros Hnotin ce w; [reflexivity|].
  simpl in Hnotin. rewrite elem_of_app in Hnotin.
  cbn [multiCore_Check]. unfold_M.
  specialize (Hm ltac:(tauto) ent ce w).
  destruct (Core_Check m ent ce w) as [ce' w'| |]; simpl in *; try done.
  rewrite IH; [done | tauto].
Qed.

Lemma Core_Check_keeps tbl c : tbl ∉ tables c -> Check_keeps tbl c.
Proof.
  induction c as [| enab enc out | mc IH | core counts T F M IH]
    using Core_nested_ind; intros Hnotin ent ce w.
  - reflexivity.
  - cbn [Core_Check]. destruct (enab (ent_Level ent)); [|reflexivity].
    unfold_M. pose proof (AddCore_counters ce ent (ioCore enab enc out) w) as H.
    destruct (AddCore _ _ _ w) as [l w']. simpl in *. by rewrite H.
  - cbn [Core_Check]. by apply multiCore_Check_keeps.
  - simpl in Hnotin. rewrite not_elem_of_cons in Hnotin.
    destruct Hnotin as [Hne Hnotin].
    destruct (Core_Enabled core (ent_Level ent)) eqn:Hen.
    + rewrite sampler_Check_step by done. cbn zeta.
      set (w' := store_counter _ _ _ w).
      assert (Hw' : w_counters w' !! tbl = w_counters w !! tbl)
        by (apply store_counter_other; congruence).
      specialize (IH Hnotin ent ce w').
      destruct (F <? _); [|congruence].
      destruct (M =? 0); [exact Hw'|].
      destruct (_ =? 0); [congruence | exact Hw'].
    + cbn [Core_Check]. rewrite Hen. reflexivity.
Qed.

Lemma Core_Check_keeps_counter tbl ix c ent ce w :
  tbl ∉ tables c ->
  load_counter tbl ix (outcome_world (Core_Check c ent ce w))
  = load_counter tbl ix w.
Proof.
  intros H. unfold load_counter, load_table.
  by rewrite (Core_Check_keeps tbl c H ent ce w).
Qed.

(** *** One tick window *)

Lemma admitted_above F M n :
  0 <= F -> F < n < 2 ^ 64 ->
  admitted F M n = (wrap_uint64 (n - F) mod M =? 0).
Proof.
  intros HF Hn. unfold admitted.
  destruct (Z.leb_spec n F); [lia|]. simpl.
  by rewrite wrap_uint64_small by lia.
Qed.

Lemma admitted_below F M n : n <= F -> admitted F M n = true.
Proof.
  intros Hn. unfold admitted. by destruct (Z.leb_spec n F); [|lia].
Qed.

(** A [Check] before the deadline, on the bucket that has counted [n - 1]
    occurrences: the bucket counts [n], and the rule at [n] decides. *)
Lemma sampler_Check_before inner tbl T F M d n ent ce w :
  Core_Enabled inner (ent_Level ent) = true ->
  0 <= F -> 1 <= M -> 1 <= n < 2 ^ 64 ->
  let ix := counters_get (ent_Level ent) (ent_Message ent) in
  load_counter tbl ix w = {| resetAt := d; counter_n := n - 1 |} ->
  ent_Time ent < d ->
  let w' := store_counter tbl ix {| resetAt := d; counter_n := n |} w in
  Core_Check (sampler inner tbl T F M) ent ce w =
    if admitted F M n then Core_Check inner ent ce w' else Ret ce w'.
Proof.
  intros Hen HF HM Hn ix Hload Ht w'.
  rewrite sampler_Check_step by done. cbn zeta. fold ix.
  rewrite Hload, IncCheckReset_before by done.
  cbn [fst snd resetAt counter_n].
  replace (n - 1 + 1) with n by lia.
  rewrite wrap_uint64_small by lia. fold w'.
  destruct (Z.ltb_spec F n).
  - rewrite admitted_above by lia.
    destruct (Z.eqb_spec M 0); [lia | reflexivity].
  - by rewrite admitted_below by lia.
Qed.

(** A [Check] at or past the deadline: the bucket restarts at one, the
    deadline moves one tick past the timestamp (an int64 sum), and the rule
    at one decides. *)
Lemma sampler_Check_after inner tbl T F M ent ce w :
  Core_Enabled inner (ent_Level ent) = true ->
  0 <= F -> 1 <= M ->
  let ix := counters_get (ent_Level ent) (ent_Message ent) in
  resetAt (load_counter tbl ix w) <= ent_Time ent ->
  let w' := store_counter tbl ix
              {| resetAt := wrap_int64 (ent_Time ent + T); counter_n := 1 |}
              w in
  Core_Check (sampler inner tbl T F M) ent ce w =
    if admitted F M 1 then Core_Check inner ent ce w' else Ret ce w'.
Proof.
  intros Hen HF HM ix Hd w'.
  rewrite sampler_Check_step by done. cbn zeta. fold ix.
  rewrite IncCheckReset_after by done. cbn [fst snd]. fold w'.
  destruct (Z.ltb_spec F 1).
  - rewrite admitted_above by lia.
    destruct (Z.eqb_spec M 0); [lia | reflexivity].
  - by rewrite admitted_below by lia.
Qed.

Lemma admitted_first F M :
  0 <= F -> 1 <= M -> admitted F M 1 = (1 <=? F) || (M =? 1).
Proof.
  intros HF HM. unfold admitted.
  destruct (Z.leb_spec 1 F); [reflexivity|]. simpl.
  replace F with 0 by lia. rewrite Z.sub_0_r.
  destruct (Z.eqb_spec M 1) as [->|Hne]; [reflexivity|].
  rewrite Z.mod_small by lia. reflexivity.
Qed.

(** Over one window the sampler does what the rule says, occurrence by
    occurrence. *)
Lemma sampler_window inner tbl T F M lvl msg d :
  Core_Enabled inner lvl = true ->
  tbl ∉ tables inner ->
  0 <= F -> 1 <= M ->
  forall calls n w,
    Forall (fun c => ent_Level (fst c) = lvl /\ ent_Message (fst c) = msg /\
                     ent_Time (fst c) < d) calls ->
    load_counter tbl (counters_get lvl msg) w
    = {| resetAt := d; counter_n := n - 1 |} ->
    1 <= n -> n + Z.of_nat (length calls) <= 2 ^ 64 ->
    Check_each (sampler inner tbl T F M) calls w
    = Check_sampled inner tbl (counters_get lvl msg) d F M n calls w.
Proof.
  intros Hen Hnotin HF HM calls.
  induction calls as [|[e ce] es IH]; intros n w Hall Hload Hn Hlen;
    [reflexivity|].
  apply Forall_cons in Hall as [(Hl & Hm & Ht) Hall].
  cbn [length fst] in *.
  cbn [Check_each Check_sampled]. unfold_M.
  assert (Hstep := sampler_Check_before inner tbl T F M d n e ce w).
  cbn zeta in Hstep. rewrite Hl, Hm in Hstep.
  rewrite Hstep by (done || lia). clear Hstep.
  set (w' := store_counter _ _ _ w).
  assert (Hnext : forall r w'',
    w_counters w'' !! tbl = w_counters w' !! tbl ->
    match Check_each (sampler inner tbl T F M) es w'' with
    | Ret a w0 => Ret (r :: a) w0
    | Panicked v w0 => Panicked v w0
    | Exited w0 => Exited w0
    end =
    match Check_sampled inner tbl (counters_get lvl msg) d F M (n + 1) es w'' with
    | Ret a w0 => Ret (r :: a) w0
    | Panicked v w0 => Panicked v w0
    | Exited w0 => Exited w0
    end).
  { intros r w'' Hsame. rewrite (IH (n + 1) w''); [done | done | | lia | lia].
    unfold load_counter, load_table. rewrite Hsame.
    replace (n + 1 - 1) with n by lia.
    apply (load_store_counter tbl _ _ w). }
  destruct (admitted F M n).
  - pose proof (Core_Check_keeps tbl inner Hnotin e ce w') as Hkeep.
    destruct (Core_Check inner e ce w') as [r w''| |]; simpl in Hkeep;
      [by apply Hnext | done | done].
  - by apply Hnext.
Qed.

(** A whole window: the occurrence that finds the deadline passed is the
    first of the new window, and the ones that follow before the new deadline
    are the second, the third, and so on. *)
Lemma sampler_whole_window inner tbl T F M e0 ce0 calls w :
  Core_Enabled inner (ent_Level e0) = true ->
  tbl ∉ tables inner ->
  0 <= F -> 1 <= M ->
  let ix := counters_get (ent_Level e0) (ent_Message e0) in
  let d := wrap_int64 (ent_Time e0 + T) in
  resetAt (load_counter tbl ix w) <= ent_Time e0 ->
  Forall (fun c => ent_Level (fst c) = ent_Level e0 /\
                   ent_Message (fst c) = ent_Message e0 /\
                   ent_Time (fst c) < d) calls ->
  2 + Z.of_nat (length calls) <= 2 ^ 64 ->
  Check_each (sampler inner tbl T F M) ((e0, ce0) :: calls) w
  = Check_sampled inner tbl ix d F M 1 ((e0, ce0) :: calls) w.
Proof.
  intros Hen Hnotin HF HM ix d Hd Hall Hlen.
  cbn [Check_each Check_sampled]. unfold_M.
  rewrite sampler_Check_after by done. cbn zeta. fold ix d.
  set (w' := store_counter tbl ix _ w).
  assert (Hnext : forall w'',
    w_counters w'' !! tbl = w_counters w' !! tbl ->
    Check_each (sampler inner tbl T F M) calls w''
    = Check_sampled inner tbl ix d F M (1 + 1) calls w'').
  { intros w'' Hsame.
    apply (sampler_window inner tbl T F M (ent_Level e0) (ent_Message e0) d);
      try done; try lia.
    unfold load_counter, load_table. rewrite Hsame.
    apply (load_store_counter tbl _ _ w). }
  destruct (admitted F M 1).
  - pose proof (Core_Check_keeps tbl inner Hnotin e0 ce0 w') as Hkeep.
    destruct (Core_Check inner e0 ce0 w') as [r w''| |]; simpl in Hkeep;
      [by rewrite Hnext | done | done].
  - by rewrite Hnext.
Qed.

(** [NewSampler] gives the sampler a table of its own, with every bucket at
    zero. *)
Lemma NewSampler_table core T F M w :
  Forall (fun t => t ∈ dom (w_counters w)) (tables core) ->
  let s := fst (NewSampler core T F M w) in
  let w' := snd (NewSampler core T F M w) in
  exists tbl,
    s = sampler core tbl T (uint64_of_int F) (uint64_of_int M) /\
    (tbl ∉ tables core) /\
    load_table tbl w' = ∅.
Proof.
  intros Hdom. unfold NewSampler, newCounters. cbn [fst snd].
  exists (fresh (dom (w_counters w))). split; [reflexivity|]. split.
  - intros Hin. rewrite Forall_forall in Hdom.
    apply (is_fresh (dom (w_counters w))). by apply Hdom.
  - unfold load_table, set_counters. cbn [w_counters].
    by rewrite lookup_insert_eq.
Qed.

(** C1 (as the code has it): for a sampler with first-count [F >= 0] and
    thereafter [M >= 1], whatever its tick, and a level and message the inner
    core's enabler admits.  Over successive [Check] calls with timestamps
    before the bucket's deadline, the [n]th occurrence of the window (the
    bucket has counted [n - 1]; counts stay below 2^64) leaves [n] in the
    bucket and is handed to the inner core's [Check] exactly when [n <= F]
    or [(n - F) mod M = 0].  A [Check] whose timestamp is at or past the
    deadline restarts the count at 1 and moves the deadline to the timestamp
    plus the tick (an int64 sum); it is handed to the inner core exactly
    when [F >= 1] or [M = 1], which is the same rule at [n = 1]. *)
Theorem sampler_window_and_reset (inner : Core) (tbl : loc) (T F M : Z)
  (lvl : Level) (msg : string) (d n : Z) (calls : list (Entry * option loc))
  (w : World) (ent : Entry) (ce : option loc) (w0 : World) :
  Core_Enabled inner lvl = true ->
  tbl ∉ tables inner ->
  0 <= F -> 1 <= M ->
  Forall (fun c => ent_Level (fst c) = lvl /\ ent_Message (fst c) = msg /\
                   ent_Time (fst c) < d) calls ->
  load_counter tbl (counters_get lvl msg) w
  = {| resetAt := d; counter_n := n - 1 |} ->
  1 <= n -> n + Z.of_nat (length calls) <= 2 ^ 64 ->
  ent_Level ent = lvl -> ent_Message ent = msg ->
  resetAt (load_counter tbl (counters_get lvl msg) w0) <= ent_Time ent ->
  Check_each (sampler inner tbl T F M) calls w
  = Check_sampled inner tbl (counters_get lvl msg) d F M n calls w
  /\
  Core_Check (sampler inner tbl T F M) ent ce w0
  = (let w' := store_counter tbl (counters_get lvl msg)
                 {| resetAt := wrap_int64 (ent_Time ent + T);
                    counter_n := 1 |} w0 in
     if (1 <=? F) || (M =? 1) then Core_Check inner ent ce w'
     else Ret ce w').
Proof.
  intros Hen Hnotin HF HM Hall Hload Hn Hlen Hl Hm Hd. split.
  - by apply sampler_window.
  - subst lvl msg. rewrite <- admitted_first by done.
    by apply sampler_Check_after.
Qed.

Lemma sampler_window_and_reset_witness :
  let inner := sample_core 7 in
  let calls := [(sample_Entry InfoLevel 10 "x", None);
                (sample_Entry InfoLevel 11 "x", None);
                (sample_Entry InfoLevel 12 "x", None);
                (sample_Entry InfoLevel 13 "x", None)] in
  let w := store_counter tbl1 (counters_get InfoLevel "x")
             {| resetAt := 1000; counter_n := 1 - 1 |} empty_World in
  let ent := sample_Entry InfoLevel 2000 "x" in
  Check_each (sampler inner tbl1 1000 1 2) calls w
  = Check_sampled inner tbl1 (counters_get InfoLevel "x") 1000 1 2 1 calls w
  /\
  Core_Check (sampler inner tbl1 1000 1 2) ent None w
  = (let w' := store_counter tbl1 (counters_get InfoLevel "x")
                 {| resetAt := wrap_int64 (ent_Time ent + 1000);
                    counter_n := 1 |} w in
     if (1 <=? 1) || (2 =? 1) then Core_Check inner ent None w'
     else Ret None w').
Proof.
  cbv zeta.
  apply (sampler_window_and_reset (sample_core 7) tbl1 1000 1 2
           InfoLevel "x" 1000 1).
  - reflexivity.
  - simpl. apply not_elem_of_nil.
  - lia.
  - lia.
  - repeat constructor.
  - apply load_store_counter.
  - lia.
  - simpl. lia.
  - reflexivity.
  - reflexivity.
  - rewrite load_store_counter. simpl. lia.
Defined.

(** C1 fails as the specification states it: with first-count 0 and
    thereafter 2 the first occurrence at or past the deadline restarts the
    count at 1 but is dropped, because 1 > 0 and 1 mod 2 is not 0.  The inner
    core, which admits the level, is not consulted, although it would have
    taken the entry. *)
Lemma sampler_first_zero_drops_first_occurrence :
  let inner := sample_core 7 in
  let s := sampler inner tbl1 1000 0 2 in
  let ent := sample_Entry InfoLevel 5 "x" in
  let ix := counters_get InfoLevel "x" in
  let w' := store_counter tbl1 ix {| resetAt := 1005; counter_n := 1 |}
              empty_World in
  Core_Enabled s InfoLevel = true /\
  resetAt (load_counter tbl1 ix empty_World) <= ent_Time ent /\
  Core_Check s ent None empty_World = Ret None w' /\
  (exists l w'', Core_Check inner ent None w' = Ret (Some l) w'') /\
  Core_Check s ent None empty_World ≠ Core_Check inner ent None w'.
Proof.
  cbv zeta. split; [reflexivity|]. split; [by vm_compute|].
  split; [by vm_compute|]. split.
  - eexists _, _. vm_compute. reflexivity.
  - vm_compute. discriminate.
Qed.

(** *** A zero [thereafter] *)

(** With [thereafter = 0] every occurrence past the first [F] dies in the
    remainder, after the bucket has been charged. *)
Lemma sampler_zero_thereafter inner tbl T F ent ce w :
  Core_Enabled inner (ent_Level ent) = true ->
  F < next_count tbl T ent w ->
  exists w',
    Core_Check (sampler inner tbl T F 0) ent ce w
    = Panicked (RuntimeError "integer divide by zero") w'.
Proof.
  intros Hen Hn. rewrite sampler_Check_step by done. cbn zeta.
  unfold next_count in Hn.
  destruct (Z.ltb_spec F (fst (IncCheckReset
    (load_counter tbl (counters_get (ent_Level ent) (ent_Message ent)) w)
    (ent_Time ent) T))); [|lia].
  eexists. reflexivity.
Qed.

(** C2 (the code at the failing input): [NewSampler] accepts first = 1 and
    thereafter = 0 and returns a sampler; its first [Check] of a message is
    handed to the inner core, and the second one within the window neither
    drops the entry nor delegates it: it panics with a division by zero. *)
Theorem NewSampler_zero_thereafter_panics :
  let inner := sample_core 7 in
  let e1 := sample_Entry InfoLevel 10 "x" in
  let e2 := sample_Entry InfoLevel 11 "x" in
  exists w0 l w1 w2,
    NewSampler inner 1000 1 0 empty_World
    = (sampler inner tbl1 1000 1 0, w0) /\
    Core_Check (sampler inner tbl1 1000 1 0) e1 None w0 = Ret (Some l) w1 /\
    Core_Check (sampler inner tbl1 1000 1 0) e2 None w1
    = Panicked (RuntimeError "integer divide by zero") w2.
Proof.
  cbv zeta. eexists _, _, _, _.
  split; [vm_compute; reflexivity|].
  split; [vm_compute; reflexivity|].
  vm_compute; reflexivity.
Qed.

(** *** Binding fields *)

Lemma tables_With c fields : tables (Core_With c fields) = tables c.
Proof.
  induction c as [| enab enc out | mc IH | core counts T F M IH]
    using Core_nested_ind; cbn [Core_With tables]; try reflexivity.
  - f_equal. induction IH as [|m mc Hm _ IHmc]; [reflexivity|].
    cbn [List.map]. by rewrite Hm, IHmc.
  - by rewrite IH.
Qed.

Lemma Enabled_With c fields lvl :
  Core_Enabled (Core_With c fields) lvl = Core_Enabled c lvl.
Proof.
  induction c as [| enab enc out | mc IH | core counts T F M IH]
    using Core_nested_ind; cbn [Core_With Core_Enabled]; try reflexivity.
  - induction IH as [|m mc Hm _ IHmc]; [reflexivity|].
    cbn [List.map multiCore_Enabled]. by rewrite Hm, IHmc.
  - exact IH.
Qed.

(** After a sampler's [Check] of an admitted level its bucket holds what
    [IncCheckReset] left there, however the call ended. *)
Lemma sampler_Check_charges inner tbl T F M ent ce w :
  tbl ∉ tables inner ->
  Core_Enabled inner (ent_Level ent) = true ->
  let ix := counters_get (ent_Level ent) (ent_Message ent) in
  load_counter tbl ix
    (outcome_world (Core_Check (sampler inner tbl T F M) ent ce w))
  = snd (IncCheckReset (load_counter tbl ix w) (ent_Time ent) T).
Proof.
  intros Hnotin Hen ix. rewrite sampler_Check_step by done. cbn zeta. fold ix.
  set (c := snd _). set (w' := store_counter tbl ix c w).
  assert (Hin : load_counter tbl ix
                  (outcome_world (Core_Check inner ent ce w')) = c).
  { rewrite Core_Check_keeps_counter by done. apply load_store_counter. }
  assert (Hw' : load_counter tbl ix w' = c) by apply load_store_counter.
  destruct (F <? _); [|exact Hin].
  destruct (M =? 0); [exact Hw'|].
  destruct (_ =? 0); [exact Hin | exact Hw'].
Qed.

(** C10: [With] on a sampler keeps its counter table, tick, first and
    thereafter and replaces only the inner core, by the inner core's [With].
    So the child and the parent charge one bucket: a [Check] of an admitted
    entry through either leaves in the shared table what [IncCheckReset]
    leaves, however the call ends; and within a window, after an occurrence
    counted through the child, the next occurrence draws the next count, be
    it checked through the parent or through the child. *)
Theorem sampler_With_shares_counters (inner : Core) (tbl : loc) (T F M : Z)
  (fields : list Field) (ent ent' : Entry) (ce : option loc) (w : World) :
  tbl ∉ tables inner ->
  Core_Enabled inner (ent_Level ent) = true ->
  let parent := sampler inner tbl T F M in
  let child := Core_With parent fields in
  let ix := counters_get (ent_Level ent) (ent_Message ent) in
  let charged := snd (IncCheckReset (load_counter tbl ix w) (ent_Time ent) T) in
  let after_child := outcome_world (Core_Check child ent ce w) in
  let after_parent := outcome_world (Core_Check parent ent ce w) in
  child = sampler (Core_With inner fields) tbl T F M /\
  load_counter tbl ix after_child = charged /\
  load_counter tbl ix after_parent = charged /\
  (ent_Level ent' = ent_Level ent -> ent_Message ent' = ent_Message ent ->
   ent_Time ent < resetAt (load_counter tbl ix w) ->
   ent_Time ent' < resetAt (load_counter tbl ix w) ->
   0 <= counter_n (load_counter tbl ix w) < 2 ^ 64 - 2 ->
   next_count tbl T ent w = counter_n (load_counter tbl ix w) + 1 /\
   next_count tbl T ent' after_child = counter_n (load_counter tbl ix w) + 2 /\
   next_count tbl T ent' after_parent
   = counter_n (load_counter tbl ix w) + 2).
Proof.
  intros Hnotin Hen parent child ix charged ac ap.
  assert (Hchild : load_counter tbl ix ac = charged).
  { subst ac child parent. cbn [Core_With].
    apply sampler_Check_charges; [by rewrite tables_With | by rewrite Enabled_With]. }
  assert (Hparent : load_counter tbl ix ap = charged)
    by (by apply sampler_Check_charges).
  split; [reflexivity|]. split; [exact Hchild|]. split; [exact Hparent|].
  intros Hl Hm Ht Ht' Hc.
  assert (Hcharged : charged =
    {| resetAt := resetAt (load_counter tbl ix w);
       counter_n := counter_n (load_counter tbl ix w) + 1 |}).
  { subst charged. rewrite IncCheckReset_before by done. cbn [snd].
    by rewrite wrap_uint64_small by lia. }
  unfold next_count. rewrite Hl, Hm. fold ix.
  rewrite Hchild, Hparent, Hcharged.
  rewrite !IncCheckReset_before by done. cbn [fst resetAt counter_n].
  rewrite !wrap_uint64_small by lia. repeat split; lia.
Qed.

Lemma sampler_With_shares_counters_witness :
  let inner := sample_core 7 in
  let parent := sampler inner tbl1 1000 1 2 in
  let child := Core_With parent [("k"%string, "v"%string)] in
  let ent := sample_Entry InfoLevel 10 "x" in
  let ent' := sample_Entry InfoLevel 11 "x" in
  let ix := counters_get InfoLevel "x" in
  let w := store_counter tbl1 ix {| resetAt := 1000; counter_n := 3 |}
             empty_World in
  child = sampler (Core_With inner [("k"%string, "v"%string)]) tbl1 1000 1 2 /\
  load_counter tbl1 ix (outcome_world (Core_Check child ent None w))
  = {| resetAt := 1000; counter_n := 4 |} /\
  load_counter tbl1 ix (outcome_world (Core_Check parent ent None w))
  = {| resetAt := 1000; counter_n := 4 |} /\
  next_count tbl1 1000 ent w = 4 /\
  next_count tbl1 1000 ent' (outcome_world (Core_Check child ent None w)) = 5 /\
  next_count tbl1 1000 ent' (outcome_world (Core_Check parent ent None w)) = 5.
Proof.
  cbv zeta.
  pose proof (sampler_With_shares_counters (sample_core 7) tbl1 1000 1 2
                [("k"%string, "v"%string)]
                (sample_Entry InfoLevel 10 "x") (sample_Entry InfoLevel 11 "x")
                None
                (store_counter tbl1 (counters_get InfoLevel "x")
                   {| resetAt := 1000; counter_n := 3 |} empty_World))
    as H.
  cbv zeta in H.
  destruct H as (H1 & H2 & H3 & H4).
  - simpl. apply not_elem_of_nil.
  - reflexivity.
  - rewrite load_store_counter in H2, H3, H4.
    destruct H4 as (H4 & H5 & H6);
      [reflexivity | reflexivity | simpl; lia | simpl; lia | simpl; lia |].
    repeat split; assumption.
Defined.

(** ** The checked entry *)

Lemma load_store_ce l c w : load_ce l (store_ce l c w) = c.
Proof.
  unfold load_ce, store_ce, set_entries; simpl. by rewrite lookup_insert_eq.
Qed.

Lemma ioCore_Write_trace enc out ent fields w :
  exists evs, snd (ioCore_Write enc out ent fields w) = add_events evs w.
Proof.
  unfold ioCore_Write, ioCore_Sync, ws_do_Write, ws_do_Sync.
  destruct (EncodeEntry enc ent fields) as [buf encErr].
  destruct (is_nil encErr); cbn [negb];
    [|exists []; symmetry; apply add_events_nil].
  rewrite !emit_add_events, add_events_app.
  destruct (is_nil _); cbn [negb snd]; [|by eexists].
  destruct (Level_gtb _ _); cbn [snd]; [|by eexists].
  rewrite add_events_app. by eexists.
Qed.

Lemma each_core_trace call mc :
  Forall (fun m => forall w, exists evs, snd (call m w) = add_events evs w) mc ->
  forall err w, exists evs, snd (each_core call mc err w) = add_events evs w.
Proof.
  induction 1 as [|m mc Hm _ IH]; intros err w; cbn [each_core].
  - exists []. symmetry. apply add_events_nil.
  - destruct (Hm w) as [evs1 H1]. destruct (call m w) as [e w1].
    cbn [snd] in H1. subst w1.
    destruct (IH (multierr.Append err e) (add_events evs1 w)) as [evs2 H2].
    rewrite H2, add_events_app. by eexists.
Qed.

(** A core's [Write] and [Sync] only add events to the trace. *)
Lemma Core_Write_trace c ent fields w :
  exists evs, snd (Core_Write c ent fields w) = add_events evs w.
Proof.
  revert w.
  induction c as [| enab enc out | mc IH | core counts T F M IH]
    using Core_nested_ind; intros w; cbn [Core_Write].
  - exists []. symmetry. apply add_events_nil.
  - apply ioCore_Write_trace.
  - by apply each_core_trace.
  - apply IH.
Qed.

Lemma write_cores_trace cores ent fields err w :
  exists evs,
    snd (each_core (fun m => Core_Write m ent fields) cores err w)
    = add_events evs w.
Proof.
  apply each_core_trace, Forall_forall. intros m _ w'.
  apply Core_Write_trace.
Qed.

Lemma report_write_error_entries eo err w :
  w_entries (report_write_error eo err w) = w_entries w.
Proof. destruct eo; simpl; [destruct (is_nil err)|]; reflexivity. Qed.

(** A [Write] on a clean entry: mark it, write to every collected core, report
    the combined error, give the entry back, then take the terminal action. *)
Lemma CheckedEntry_Write_clean l fields w :
  ce_dirty (load_ce l w) = false ->
  let c := load_ce l w in
  let written :=
    run_members (fun m => Core_Write m (ce_Entry c) fields) (ce_cores c)
      (store_ce l (with_dirty true c) w) in
  CheckedEntry_Write (Some l) fields w =
    finish (ce_should c) (ent_Message (ce_Entry c))
      (putCheckedEntry (Some l)
         (report_write_error (ce_ErrorOutput c) (concat (fst written))
            (snd written))).
Proof.
  intros Hclean c written. unfold CheckedEntry_Write. rewrite Hclean. fold c.
  destruct (write_cores_trace (ce_cores c) (ce_Entry c) fields nil_error
              (store_ce l (with_dirty true c) w)) as [evs Hevs].
  rewrite each_core_run_members in *. subst written.
  destruct (run_members _ _ _) as [es w2]. cbn [fst snd] in *.
  change (nil_error ++ concat es) with (concat es).
  assert (Hload : load_ce l (report_write_error (ce_ErrorOutput c) (concat es) w2)
                  = with_dirty true c).
  { unfold load_ce at 1. rewrite report_write_error_entries, Hevs.
    apply (load_store_ce l _ w). }
  rewrite Hload. reflexivity.
Qed.

(** Once [Write] has run on an entry, its dirty flag is set. *)
Lemma CheckedEntry_Write_leaves_dirty l fields w :
  ce_dirty (load_ce l (outcome_world (CheckedEntry_Write (Some l) fields w)))
  = true.
Proof.
  destruct (ce_dirty (load_ce l w)) eqn:Hd.
  - unfold CheckedEntry_Write. rewrite Hd. cbn [outcome_world].
    unfold report_reuse. destruct (ce_ErrorOutput _); exact Hd.
  - rewrite CheckedEntry_Write_clean by done. cbv zeta.
    destruct (write_cores_trace (ce_cores (load_ce l w))
                (ce_Entry (load_ce l w)) fields nil_error
                (store_ce l (with_dirty true (load_ce l w)) w)) as [evs Hevs].
    rewrite each_core_run_members in Hevs.
    destruct (run_members _ _ _) as [es w2]. cbn [fst snd] in *.
    change (nil_error ++ concat es) with (concat es) in *.
    assert (Hload : load_ce l
      (putCheckedEntry (Some l)
         (report_write_error (ce_ErrorOutput (load_ce l w)) (concat es) w2))
      = with_dirty true (load_ce l w)).
    { unfold load_ce at 1. cbn [putCheckedEntry set_cePool w_entries].
      rewrite report_write_error_entries, Hevs.
      apply (load_store_ce l _ w). }
    destruct (ce_should _); cbn [finish outcome_world]; by rewrite Hload.
Qed.

(** C3: [Write] on a checked entry whose dirty flag is set (as every
    completed [Write] leaves it) returns normally and calls no core: the
    entries, the pool and the counters are as before, nothing panics or
    exits, and the trace grows by the reuse diagnostic and a [Sync] on the
    error output exactly when the entry has one. *)
Theorem Write_on_dirty_entry (l : loc) (fields : list Field) (w : World) :
  ce_dirty (load_ce l w) = true ->
  let c := load_ce l w in
  CheckedEntry_Write (Some l) fields w =
    Ret tt
      match ce_ErrorOutput c with
      | Some eo =>
          add_events
            [EvWrite (ws_id eo)
               (PDiag (DiagReuse (w_clock w (w_clockIdx w)) (ce_Entry c)));
             EvSync (ws_id eo)]
            (set_clockIdx S w)
      | None => w
      end.
Proof.
  intros Hd c. unfold CheckedEntry_Write. rewrite Hd. fold c.
  unfold report_reuse. destruct (ce_ErrorOutput c) as [eo|]; [|reflexivity].
  unfold report, ws_do_Write, ws_do_Sync, time_Now. cbn [snd].
  by rewrite !emit_add_events, add_events_app.
Qed.

Lemma Write_on_dirty_entry_witness :
  let log := sample_Logger (sample_core 7) in
  let l : loc := 1%positive in
  let w := outcome_world (Logger_Info log "x" [] empty_World) in
  let c := load_ce l w in
  ce_dirty c = true /\
  CheckedEntry_Write (Some l) [] w =
    Ret tt
      match ce_ErrorOutput c with
      | Some eo =>
          add_events
            [EvWrite (ws_id eo)
               (PDiag (DiagReuse (w_clock w (w_clockIdx w)) (ce_Entry c)));
             EvSync (ws_id eo)]
            (set_clockIdx S w)
      | None => w
      end.
Proof.
  cbv zeta. split; [by vm_compute|].
  apply (Write_on_dirty_entry 1%positive []
           (outcome_world
              (Logger_Info (sample_Logger (sample_core 7)) "x" [] empty_World))).
  by vm_compute.
Defined.

(** ** The logger *)

Lemma getCheckedEntry_clean w :
  load_ce (fst (getCheckedEntry w)) (snd (getCheckedEntry w))
  = new_CheckedEntry.
Proof.
  unfold getCheckedEntry. destruct (cePool_Get w) as [l w1]. cbn [fst snd].
  apply load_store_ce.
Qed.

Lemma bootstrap_ok ent ce w :
  handle_ok ent ce w ->
  handle_ok ent (Some (fst (bootstrap ce ent w))) (snd (bootstrap ce ent w)).
Proof.
  destruct ce as [l|]; cbn [bootstrap fst snd]; [done|]. intros _.
  pose proof (getCheckedEntry_clean w) as H.
  destruct (getCheckedEntry w) as [l w1]. cbn [fst snd handle_ok] in *.
  rewrite load_store_ce, H. done.
Qed.

Lemma bootstrap_keeps l ent w : bootstrap (Some l) ent w = (l, w).
Proof. reflexivity. Qed.

Lemma AddCore_ok ent ce c w :
  handle_ok ent ce w ->
  handle_ok ent (Some (fst (AddCore ce ent c w))) (snd (AddCore ce ent c w)).
Proof.
  intros H. apply bootstrap_ok in H. unfold AddCore.
  destruct (bootstrap ce ent w) as [l w1]. cbn [fst snd handle_ok] in *.
  by rewrite load_store_ce.
Qed.

Lemma handle_ok_store_counter ent ce tbl ix c w :
  handle_ok ent ce (store_counter tbl ix c w) <-> handle_ok ent ce w.
Proof. destruct ce; reflexivity. Qed.

Lemma multiCore_Check_returns ent mc :
  Forall (fun m => thereafter_nonzero m = true -> Check_returns m) mc ->
  forallb thereafter_nonzero mc = true ->
  forall ce w,
    handle_ok ent ce w ->
    exists r w',
      multiCore_Check (fun m => Core_Check m ent) mc ce w = Ret r w' /\
      handle_ok ent r w'.
Proof.
  induction 1 as [|m mc Hm _ IH]; intros Hwf ce w Hok; cbn [multiCore_Check].
  - by exists ce, w.
  - cbn [forallb] in Hwf. apply andb_true_iff in Hwf as [Hwfm Hwf].
    destruct (Hm Hwfm ent ce w Hok) as (r & w' & Heq & Hok').
    unfold_M. rewrite Heq. by apply IH.
Qed.

Lemma Core_Check_returns c : thereafter_nonzero c = true -> Check_returns c.
Proof.
  induction c as [| enab enc out | mc IH | core counts T F M IH]
    using Core_nested_ind; intros Hwf ent ce w Hok.
  - by exists ce, w.
  - cbn [Core_Check]. destruct (enab (ent_Level ent)); [|by exists ce, w].
    unfold_M. pose proof (AddCore_ok ent ce (ioCore enab enc out) w Hok) as H.
    destruct (AddCore _ _ _ w) as [l w']. by exists (Some l), w'.
  - cbn [Core_Check]. by apply multiCore_Check_returns.
  - cbn [thereafter_nonzero] in Hwf. apply andb_true_iff in Hwf as [HM Hwf].
    apply negb_true_iff in HM.
    destruct (Core_Enabled core (ent_Level ent)) eqn:Hen.
    + rewrite sampler_Check_step by done. cbn zeta. rewrite HM.
      set (w' := store_counter _ _ _ w).
      assert (Hok' : handle_ok ent ce w') by by apply handle_ok_store_counter.
      destruct (F <? _); [|exact (IH Hwf ent ce w' Hok')].
      destruct (_ `mod` M =? 0); [exact (IH Hwf ent ce w' Hok') | by exists ce, w'].
    + cbn [Core_Check]. rewrite Hen. by exists ce, w.
Qed.

Lemma Should_ok ent ce a w :
  handle_ok ent ce w ->
  let l := fst (Should ce ent a w) in
  let w' := snd (Should ce ent a w) in
  ce_dirty (load_ce l w') = false /\
  ce_Entry (load_ce l w') = ent /\
  ce_should (load_ce l w') = a.
Proof.
  intros H. apply bootstrap_ok in H. unfold Should.
  destruct (bootstrap ce ent w) as [l w1]. cbn [fst snd handle_ok] in *.
  rewrite load_store_ce. cbn. tauto.
Qed.

Lemma Should_same_handle l ent a w : fst (Should (Some l) ent a w) = l.
Proof. reflexivity. Qed.

(** The annotations of [check] leave the dirty flag, the terminal action and
    the message of the entry as they are. *)
Lemma annotate_keeps log l w :
  let c := load_ce l w in
  let c' := load_ce l (annotate log l w) in
  ce_dirty c' = ce_dirty c /\
  ce_should c' = ce_should c /\
  ent_Message (ce_Entry c') = ent_Message (ce_Entry c).
Proof.
  cbv zeta. unfold annotate.
  destruct (log_addCaller log).
  - destruct (w_Caller _ _) as [[[pc file] line] ok].
    destruct ok; cbn [NewEntryCaller negb Defined_ no_caller];
      unfold time_Now, report, ws_do_Sync, ws_do_Write, emit; cbn [snd fst];
      destruct (log_addStack log _);
      unfold load_ce, store_ce, set_entries, set_trace, set_clockIdx;
      cbn [w_entries]; rewrite ?lookup_insert_eq; cbn; done.
  - destruct (log_addStack log _);
      unfold load_ce, store_ce, set_entries; cbn [w_entries];
      rewrite ?lookup_insert_eq; cbn; done.
Qed.

Lemma willWrite_eq (r : option loc) :
  bool_decide (r ≠ None) = match r with Some _ => true | None => false end.
Proof.
  destruct r; [by apply bool_decide_eq_true_2|].
  by apply bool_decide_eq_false_2; intros H; apply H.
Qed.

(** [check] returns when the core's [Check] does, with a clean entry that
    carries the terminal action of the level and the message; the entry is
    nil only when nothing agreed to log and the level is not terminal. *)
Lemma Logger_check_returns log lvl msg w :
  thereafter_nonzero (log_core log) = true ->
  exists r w',
    Logger_check log lvl msg w = Ret r w' /\
    match r with
    | None => terminal_action log lvl = WriteThenNoop
    | Some l =>
        ce_dirty (load_ce l w') = false /\
        ce_should (load_ce l w') = terminal_action log lvl /\
        ent_Message (ce_Entry (load_ce l w')) = msg
    end.
Proof.
  intros Hwf. unfold Logger_check. unfold_M. unfold time_Now.
  set (ent := {| ent_Level := lvl; ent_Message := msg |}).
  destruct (Core_Check_returns _ Hwf ent None (set_clockIdx S w) I)
    as (r1 & w1 & Heq & Hok).
  rewrite Heq, willWrite_eq. change (ent_Level ent) with lvl.
  set (step := match lvl with
               | PanicLevel => _ | FatalLevel => _ | DPanicLevel => _
               | _ => _ end).
  assert (Hstep :
    (terminal_action log lvl = WriteThenNoop /\ step w1 = (r1, w1)) \/
    (exists l2 w2, step w1 = (Some l2, w2) /\
       (forall l, r1 = Some l -> l2 = l) /\
       ce_dirty (load_ce l2 w2) = false /\
       ce_Entry (load_ce l2 w2) = ent /\
       ce_should (load_ce l2 w2) = terminal_action log lvl)).
  { assert (Hsh : forall a, terminal_action log lvl = a ->
      exists l2 w2, check_Should r1 ent a w1 = (Some l2, w2) /\
       (forall l, r1 = Some l -> l2 = l) /\
       ce_dirty (load_ce l2 w2) = false /\
       ce_Entry (load_ce l2 w2) = ent /\
       ce_should (load_ce l2 w2) = terminal_action log lvl).
    { intros a Ha. unfold check_Should.
      pose proof (Should_ok ent r1 a w1 Hok) as Hsh. cbv zeta in Hsh.
      assert (Hsame : forall l, r1 = Some l -> fst (Should r1 ent a w1) = l)
        by (by intros l ->).
      destruct (Should r1 ent a w1) as [l2 w2]. cbn [fst snd] in *.
      exists l2, w2. rewrite Ha. tauto. }
    subst step. destruct lvl;
      try (left; split; reflexivity); try (right; by apply Hsh).
    cbn [terminal_action] in *.
    destruct (log_development log);
      [right; by apply Hsh | left; split; reflexivity]. }
  clearbody step.
  destruct Hstep as [[Hnoop Hstep] | (l2 & w2 & Hstep & Hsame & Hd2 & He2 & Hs2)];
    rewrite Hstep.
  - destruct r1 as [l|]; cbn [negb]; eexists _, _; (split; [reflexivity|]);
      cbv beta iota; [|exact Hnoop].
    destruct (annotate_keeps log l w1) as (Hd & Hs & Hm).
    destruct Hok as (Hd1 & He1 & Hs1).
    rewrite Hd, Hs, Hm, Hd1, Hs1, He1, Hnoop. done.
  - destruct r1 as [l|]; cbn [negb]; eexists _, _; (split; [reflexivity|]);
      cbv beta iota.
    + destruct (annotate_keeps log l2 w2) as (Hd & Hs & Hm).
      rewrite Hd, Hs, Hm, Hd2, Hs2, He2. done.
    + rewrite Hd2, Hs2, He2. done.
Qed.

(** A log call on a logger whose samplers all have a non-zero [thereafter]:
    [check] returns; when it returns an entry, every collected core is
    written to, the combined error is reported, the entry goes back to the
    pool, and the call then ends as the terminal action of the level says,
    whatever the writes returned and whether or not any core agreed to
    log. *)
Lemma Logger_log_terminal log lvl msg fields w :
  thereafter_nonzero (log_core log) = true ->
  exists r w1,
    Logger_check log lvl msg w = Ret r w1 /\
    (terminal_action log lvl ≠ WriteThenNoop -> r ≠ None) /\
    Logger_log log lvl msg fields w =
      match r with
      | None => Ret tt w1
      | Some l =>
          let c := load_ce l w1 in
          let written :=
            run_members (fun m => Core_Write m (ce_Entry c) fields)
              (ce_cores c) (store_ce l (with_dirty true c) w1) in
          finish (terminal_action log lvl) msg
            (putCheckedEntry (Some l)
               (report_write_error (ce_ErrorOutput c) (concat (fst written))
                  (snd written)))
      end.
Proof.
  intros Hwf.
  destruct (Logger_check_returns log lvl msg w Hwf) as (r & w1 & Hcheck & Hr).
  exists r, w1. split; [exact Hcheck|]. split.
  - intros Hterm ->. by apply Hterm.
  - unfold Logger_log. unfold_M. rewrite Hcheck, willWrite_eq.
    destruct r as [l|]; [|reflexivity].
    destruct Hr as (Hd & Hs & Hm).
    rewrite CheckedEntry_Write_clean by done. cbv zeta. by rewrite Hs, Hm.
Qed.

(** X1: on a logger none of whose samplers has a zero [thereafter], [Panic]
    panics with the message, [Fatal] leaves the process, and [DPanic] panics
    with the message in development mode, whatever the cores' writes return
    and whether or not any core is enabled for the level. *)
Lemma Logger_Panic_Fatal log msg fields w :
  thereafter_nonzero (log_core log) = true ->
  (exists w', Logger_Panic log msg fields w = Panicked (PanicString msg) w') /\
  (exists w', Logger_Fatal log msg fields w = Exited w') /\
  (log_development log = true ->
   exists w', Logger_DPanic log msg fields w = Panicked (PanicString msg) w').
Proof.
  intros Hwf. unfold Logger_Panic, Logger_Fatal, Logger_DPanic.
  repeat split; [| |intros Hdev].
  - destruct (Logger_log_terminal log PanicLevel msg fields w Hwf)
      as (r & w1 & _ & Hr & ->).
    destruct r as [l|]; [by eexists | by destruct Hr].
  - destruct (Logger_log_terminal log FatalLevel msg fields w Hwf)
      as (r & w1 & _ & Hr & ->).
    destruct r as [l|]; [by eexists | by destruct Hr].
  - destruct (Logger_log_terminal log DPanicLevel msg fields w Hwf)
      as (r & w1 & _ & Hr & ->).
    cbn [terminal_action] in *. rewrite Hdev in *.
    destruct r as [l|]; [by eexists | by destruct Hr].
Qed.

(** C4 (the code at the failing input): on a logger over a sampler built
    with first = 0 and thereafter = 0, [Fatal] does not leave the process and
    [Panic] does not panic with the message: the sampler's [Check] dies with
    a division by zero before [check] sets the terminal action, and no core
    is written to. *)
Theorem Logger_Fatal_zero_thereafter :
  let inner := sample_core 7 in
  let s := fst (NewSampler inner 1000 0 0 empty_World) in
  let w0 := snd (NewSampler inner 1000 0 0 empty_World) in
  let died :=
    Panicked (RuntimeError "integer divide by zero")
      (store_counter tbl1 (counters_get FatalLevel "x")
         {| resetAt := 1000; counter_n := 1 |} (set_clockIdx S w0)) in
  let died' :=
    Panicked (RuntimeError "integer divide by zero")
      (store_counter tbl1 (counters_get PanicLevel "x")
         {| resetAt := 1000; counter_n := 1 |} (set_clockIdx S w0)) in
  s = sampler inner tbl1 1000 0 0 /\
  Logger_Fatal (sample_Logger s) "x" [] w0 = died /\
  Logger_Panic (sample_Logger s) "x" [] w0 = died'.
Proof. cbv zeta. repeat split; by vm_compute. Qed.

(** ** The sink registry *)

Section Registry_properties.
Import sink.

Variable Map_unicode_ToLower : string -> string.
Variable os_OpenFile : string -> list OpenFlag -> Z -> nat * error.

(** What the library guarantees of the Unicode mapping: it drops no
    character, and it leaves no ASCII capital behind. *)
Hypothesis ToLower_nonempty :
  forall s, s ≠ EmptyString -> Map_unicode_ToLower s ≠ EmptyString.
Hypothesis ToLower_no_upper :
  forall s, no_upper (Map_unicode_ToLower s) = true.

Lemma lower_byte_not_upper c : byte_in "A" "Z" (lower_byte c) = false.
Proof. destruct c as [[] [] [] [] [] [] [] []]; reflexivity. Qed.

Lemma no_upper_ascii_ToLower s : no_upper (ascii_ToLower s) = true.
Proof.
  induction s as [|c s IH]; [reflexivity|].
  unfold no_upper, ascii_ToLower in *. cbn [map_bytes all_bytes].
  by rewrite lower_byte_not_upper, IH.
Qed.

Lemma ascii_ToLower_nonempty s :
  s ≠ EmptyString -> ascii_ToLower s ≠ EmptyString.
Proof. by destruct s. Qed.

Lemma strings_ToLower_no_upper s :
  no_upper (strings_ToLower Map_unicode_ToLower s) = true.
Proof.
  unfold strings_ToLower. destruct (all_bytes _ s).
  - apply no_upper_ascii_ToLower.
  - apply ToLower_no_upper.
Qed.

Lemma strings_ToLower_nonempty s :
  s ≠ EmptyString -> strings_ToLower Map_unicode_ToLower s ≠ EmptyString.
Proof.
  intros Hs. unfold strings_ToLower. destruct (all_bytes _ s).
  - by apply ascii_ToLower_nonempty.
  - by apply ToLower_nonempty.
Qed.

Lemma scheme_char_lower c :
  byte_in "A" "Z" c = false ->
  scheme_char c =
    (byte_in "a" "z" c || byte_in "0" "9" c
     || (byte_is "." c || byte_is "+" c || byte_is "-" c)).
Proof.
  intros H. unfold scheme_char, is_letter, is_digit. rewrite H.
  by destruct (byte_in "a" "z" c), (byte_in "0" "9" c), (byte_is "." c),
    (byte_is "+" c), (byte_is "-" c).
Qed.

Lemma normalizeScheme_rest_spec s r :
  no_upper r = true ->
  exists e,
    normalizeScheme_rest s r
    = Returns (if all_bytes scheme_char r then s else EmptyString, e) /\
    is_nil e = all_bytes scheme_char r.
Proof.
  induction r as [|c r IH]; intros Hup; cbn [normalizeScheme_rest all_bytes].
  - by exists nil_error.
  - unfold no_upper in Hup. cbn [all_bytes] in Hup.
    apply andb_true_iff in Hup as [Hc Hr]. apply negb_true_iff in Hc.
    rewrite (scheme_char_lower c Hc).
    destruct (byte_in "a" "z" c); [by apply IH|].
    destruct (byte_in "0" "9" c); [by apply IH|].
    destruct (byte_is "." c || byte_is "+" c || byte_is "-" c);
      [by apply IH|].
    by eexists.
Qed.

Lemma first_letter_lower c :
  byte_in "A" "Z" c = false ->
  (byte_of c <? byte_of "a") || (byte_of "z" <? byte_of c) = negb (is_letter c).
Proof.
  intros H. unfold is_letter. rewrite H, orb_false_r.
  unfold byte_in. rewrite negb_andb, <- !Z.ltb_antisym. reflexivity.
Qed.

Lemma normalizeScheme_spec s :
  s ≠ EmptyString ->
  let n := strings_ToLower Map_unicode_ToLower s in
  exists e,
    normalizeScheme Map_unicode_ToLower s
    = Returns (if valid_scheme n then n else EmptyString, e) /\
    is_nil e = valid_scheme n.
Proof.
  intros Hs n. unfold normalizeScheme. fold n.
  pose proof (strings_ToLower_nonempty s Hs) as Hne.
  pose proof (strings_ToLower_no_upper s) as Hup. fold n in Hne, Hup.
  destruct n as [|first rest]; [done|].
  unfold no_upper in Hup. cbn [all_bytes] in Hup.
  apply andb_true_iff in Hup as [Hc Hr]. apply negb_true_iff in Hc.
  rewrite (first_letter_lower first Hc). cbn [valid_scheme].
  destruct (is_letter first); cbn [negb andb]; [|by eexists].
  by apply normalizeScheme_rest_spec.
Qed.

(** C8: [RegisterSink] always returns, never panics.  It returns an error
    and leaves the registry as it was when the scheme is empty, when the
    lowercased scheme does not start with a letter or holds a later
    character other than a letter, a digit, [.], [+] or [-], and when a
    factory is already registered under the lowercased scheme; otherwise it
    returns no error and the registry maps the lowercased scheme to the
    factory.  On the initial registry "3ab" and "a_b" are refused,
    "a.b+c-9" is accepted, and "file", in any case of letters, is refused as
    already registered. *)
Theorem RegisterSink_behaviour (scheme : string) (factory : Factory)
  (registered : gmap string Factory) :
  let n := strings_ToLower Map_unicode_ToLower scheme in
  let accepted :=
    registration_accepted Map_unicode_ToLower scheme registered in
  let initial := resetSinkRegistry os_OpenFile in
  (exists e,
     RegisterSink Map_unicode_ToLower scheme factory registered
     = Returns (e, if accepted then <[n := factory]> registered
                   else registered) /\
     is_nil e = accepted) /\
  valid_scheme "3ab" = false /\
  valid_scheme "a_b" = false /\
  valid_scheme "a.b+c-9" = true /\
  registration_accepted Map_unicode_ToLower "3ab" initial = false /\
  registration_accepted Map_unicode_ToLower "a_b" initial = false /\
  registration_accepted Map_unicode_ToLower "a.b+c-9" initial = true /\
  registration_accepted Map_unicode_ToLower "file" initial = false /\
  registration_accepted Map_unicode_ToLower "FILE" initial = false.
Proof.
  cbv zeta. split; [|repeat split; by vm_compute].
  unfold RegisterSink, registration_accepted.
  case_bool_decide as Hs; cbn [negb andb]; [by eexists|].
  destruct (normalizeScheme_spec scheme Hs) as (e & Heq & He).
  cbv zeta in Heq, He. rewrite Heq.
  destruct (valid_scheme _); rewrite He; cbn [negb andb]; [|by eexists].
  destruct (registered !! _) as [f|] eqn:Hlook.
  - rewrite bool_decide_false by done. by eexists.
  - rewrite bool_decide_true by done. by eexists.
Qed.

(** C9: the file factory returns an error and no sink for a locator with
    user-info, a fragment, a query string or a port, or with a host that is
    neither empty nor localhost.  Otherwise the path "stdout" or "stderr"
    gives the standard stream inside a [nopCloserSink], and any other path
    is opened write-only in append mode, created if absent, with what
    [os.OpenFile] returns handed on.  [Close] on a [nopCloserSink] returns
    nil and closes nothing. *)
Theorem newFileSink_behaviour (u : URL) (ws : StdStream) (closed : Closed) :
  (if file_locator_rejected u then
     fst (newFileSink os_OpenFile u) = None /\
     is_nil (snd (newFileSink os_OpenFile u)) = false
   else if bool_decide (Path u = "stdout") then
     newFileSink os_OpenFile u = (Some (nopCloserSink Stdout), nil_error)
   else if bool_decide (Path u = "stderr") then
     newFileSink os_OpenFile u = (Some (nopCloserSink Stderr), nil_error)
   else
     newFileSink os_OpenFile u
     = (Some (osFile (fst (os_OpenFile (Path u)
                             [O_WRONLY; O_APPEND; O_CREATE] 420))),
        snd (os_OpenFile (Path u) [O_WRONLY; O_APPEND; O_CREATE] 420))) /\
  Sink_Close (nopCloserSink ws) closed = (nil_error, closed).
Proof.
  split; [|reflexivity].
  unfold file_locator_rejected, newFileSink.
  destruct (bool_decide (User u ≠ None)); [done|].
  destruct (bool_decide (Fragment u ≠ EmptyString)); [done|].
  destruct (bool_decide (RawQuery u ≠ EmptyString)); [done|].
  destruct (bool_decide (Port u ≠ EmptyString)); [done|].
  cbn [orb].
  destruct (bool_decide (Hostname u ≠ EmptyString)
            && bool_decide (Hostname u ≠ "localhost")); [done|].
  destruct (bool_decide (Path u = "stdout")); [done|].
  destruct (bool_decide (Path u = "stderr")); [done|].
  by destruct (os_OpenFile _ _ _).
Qed.

End Registry_properties.

Lemma RegisterSink_behaviour_witness :
  let initial := sink.resetSinkRegistry sink.no_OpenFile in
  (exists e,
     sink.RegisterSink sink.ascii_ToLower "Memory" sink.sample_Factory initial
     = sink.Returns (e, <["memory"%string := sink.sample_Factory]> initial) /\
     is_nil e = true) /\
  sink.valid_scheme "3ab" = false /\
  sink.valid_scheme "a_b" = false /\
  sink.valid_scheme "a.b+c-9" = true /\
  sink.registration_accepted sink.ascii_ToLower "3ab" initial = false /\
  sink.registration_accepted sink.ascii_ToLower "a_b" initial = false /\
  sink.registration_accepted sink.ascii_ToLower "a.b+c-9" initial = true /\
  sink.registration_accepted sink.ascii_ToLower "file" initial = false /\
  sink.registration_accepted sink.ascii_ToLower "FILE" initial = false.
Proof.
  cbv zeta.
  apply (RegisterSink_behaviour sink.ascii_ToLower sink.no_OpenFile
           ascii_ToLower_nonempty no_upper_ascii_ToLower
           "Memory" sink.sample_Factory
           (sink.resetSinkRegistry sink.no_OpenFile)).
Defined.

Lemma Logger_Panic_Fatal_witness :
  let log := sample_Logger (multiCore [sample_core 7;
               NewCore message_Encoder (bad_ws 8) (fun _ => false)]) in
  (exists w', Logger_Panic log "x" [] empty_World
              = Panicked (PanicString "x") w') /\
  (exists w', Logger_Fatal log "x" [] empty_World = Exited w') /\
  (log_development log = true ->
   exists w', Logger_DPanic log "x" [] empty_World
              = Panicked (PanicString "x") w').
Proof.
  cbv zeta.
  apply (Logger_Panic_Fatal
           (sample_Logger (multiCore [sample_core 7;
              NewCore message_Encoder (bad_ws 8) (fun _ => false)]))
           "x" [] empty_World).
  reflexivity.
Defined.

(** * Further properties of the code *)

(** ** Cores: what [Check], [Write] and [Sync] do and leave alone *)

Lemma multiCore_Enabled_false (Enabled : Core -> bool) mc :
  multiCore_Enabled Enabled mc = false ->
  Forall (fun m => Enabled m = false) mc.
Proof.
  induction mc as [|m mc IH]; cbn [multiCore_Enabled]; [constructor|].
  destruct (Enabled m) eqn:Hm; [discriminate|]. by constructor; [|apply IH].
Qed.

Lemma Core_Check_disabled (c : Core) (ent : Entry) (ce : option loc)
  (w : World) :
  Core_Enabled c (ent_Level ent) = false ->
  Core_Check c ent ce w = Ret ce w.
Proof.
  revert ce w.
  induction c as [| enab enc out | mc IH | core counts T F M IH]
    using Core_nested_ind; intros ce w Hen; cbn [Core_Check Core_Enabled] in *.
  - reflexivity.
  - by rewrite Hen.
  - apply multiCore_Enabled_false in Hen.
    revert ce w. induction IH as [|m mc Hm _ IHmc]; intros ce w; [reflexivity|].
    apply Forall_cons in Hen as [Hen1 Hen].
    cbn [multiCore_Check]. unfold_M. rewrite (Hm ce w Hen1). by apply IHmc.
  - by rewrite Hen.
Qed.

(** X2: [Check] of a core that is not enabled for the entry's level returns
    the checked entry it was given and changes nothing at all: no entry is
    borrowed from the pool, no destination is touched, and no sampler bucket
    is charged, however the core is composed. *)
Theorem Check_disabled_is_noop (c : Core) (ent : Entry) (ce : option loc)
  (w : World) :
  Core_Enabled c (ent_Level ent) = false ->
  Core_Check c ent ce w = Ret ce w.
Proof. apply Core_Check_disabled. Qed.

Lemma Check_disabled_is_noop_witness :
  let c := multiCore [nopCore;
                      sampler (NewCore message_Encoder (good_ws 7)
                                 (fun lvl => Level_gtb lvl InfoLevel))
                        tbl1 1000 0 0] in
  Core_Check c (sample_Entry DebugLevel 3 "x") None empty_World
  = Ret None empty_World.
Proof.
  cbv zeta.
  apply (Check_disabled_is_noop
           (multiCore [nopCore;
                       sampler (NewCore message_Encoder (good_ws 7)
                                  (fun lvl => Level_gtb lvl InfoLevel))
                         tbl1 1000 0 0])
           (sample_Entry DebugLevel 3 "x") None empty_World).
  reflexivity.
Defined.

Lemma AddCore_io ce ent c w :
  w_trace (snd (AddCore ce ent c w)) = w_trace w /\
  w_clockIdx (snd (AddCore ce ent c w)) = w_clockIdx w.
Proof.
  unfold AddCore, bootstrap, getCheckedEntry, cePool_Get.
  destruct ce as [l|]; [done|].
  destruct (_ ≫= _) as [[i l]|]; done.
Qed.

Lemma Core_Check_io (c : Core) (ent : Entry) (ce : option loc)
  (w : World) :
  w_trace (outcome_world (Core_Check c ent ce w)) = w_trace w /\
  w_clockIdx (outcome_world (Core_Check c ent ce w)) = w_clockIdx w.
Proof.
  revert ce w.
  induction c as [| enab enc out | mc IH | core counts T F M IH]
    using Core_nested_ind; intros ce w; cbn [Core_Check].
  - done.
  - destruct (enab (ent_Level ent)); [|done]. unfold_M.
    pose proof (AddCore_io ce ent (ioCore enab enc out) w) as H.
    by destruct (AddCore _ _ _ w).
  - revert ce w. induction IH as [|m mc Hm _ IHmc]; intros ce w; [done|].
    cbn [multiCore_Check]. unfold_M. specialize (Hm ce w).
    destruct (Core_Check m ent ce w) as [r w'| |]; cbn [outcome_world] in *;
      try done.
    destruct (IHmc r w') as [H1 H2]. destruct Hm as [H3 H4].
    split; congruence.
  - destruct (Core_Enabled core (ent_Level ent)) eqn:Hen; [|done].
    cbn [negb]. unfold_M. unfold IncCheckReset_at, uint64_rem.
    destruct (IncCheckReset _ _ _) as [n c'].
    set (w' := store_counter counts _ c' w).
    specialize (IH ce w').
    destruct (F <? n); [|exact IH].
    unfold_M. destruct (M =? 0); [done|].
    destruct (_ `mod` M =? 0); [exact IH | done].
Qed.

(** X3: [Check] performs no I/O, whatever the core and however the call
    ends: it adds no event to any destination and does not read the
    clock. *)
Theorem Check_performs_no_IO (c : Core) (ent : Entry) (ce : option loc)
  (w : World) :
  w_trace (outcome_world (Core_Check c ent ce w)) = w_trace w /\
  w_clockIdx (outcome_world (Core_Check c ent ce w)) = w_clockIdx w.
Proof. apply Core_Check_io. Qed.

Lemma Level_to_Z_inj l1 l2 : Level_to_Z l1 = Level_to_Z l2 -> l1 = l2.
Proof. by destruct l1, l2. Qed.

Lemma load_store_counter_ne tbl ix ix' c w :
  ix ≠ ix' ->
  load_counter tbl ix' (store_counter tbl ix c w) = load_counter tbl ix' w.
Proof.
  intros Hne. unfold load_counter at 1. unfold load_table, store_counter,
    set_counters. cbn [w_counters].
  rewrite lookup_insert_eq. simpl. by rewrite lookup_insert_ne.
Qed.

(** X4: a sampler's [Check] charges the one bucket of the entry's level and
    message slot and leaves every other bucket of its table as it was, however
    the call ends; in particular entries of one level never use up the budget
    of another level. *)
Theorem sampler_Check_charges_one_bucket (inner : Core) (tbl : loc)
  (T F M : Z) (ent : Entry) (ce : option loc) (w : World) (ix' : Z * Z)
  (lvl' : Level) (msg' : string) :
  tbl ∉ tables inner ->
  let after := outcome_world (Core_Check (sampler inner tbl T F M) ent ce w) in
  (ix' ≠ counters_get (ent_Level ent) (ent_Message ent) ->
   load_counter tbl ix' after = load_counter tbl ix' w) /\
  (lvl' ≠ ent_Level ent ->
   load_counter tbl (counters_get lvl' msg') after
   = load_counter tbl (counters_get lvl' msg') w).
Proof.
  intros Hnotin after.
  assert (Hgen : forall ix,
    ix ≠ counters_get (ent_Level ent) (ent_Message ent) ->
    load_counter tbl ix after = load_counter tbl ix w).
  { intros ix Hne. subst after.
    destruct (Core_Enabled inner (ent_Level ent)) eqn:Hen.
    - rewrite sampler_Check_step by done. cbn zeta.
      set (w' := store_counter _ _ _ w).
      assert (Hw' : load_counter tbl ix w' = load_counter tbl ix w)
        by (by apply load_store_counter_ne).
      assert (Hin : load_counter tbl ix
                      (outcome_world (Core_Check inner ent ce w'))
                    = load_counter tbl ix w)
        by (by rewrite Core_Check_keeps_counter).
      destruct (F <? _); [|exact Hin].
      destruct (M =? 0); [exact Hw'|].
      destruct (_ `mod` M =? 0); [exact Hin | exact Hw'].
    - cbn [Core_Check]. by rewrite Hen. }
  split; [exact (Hgen ix')|].
  intros Hlvl. apply Hgen. unfold counters_get. intros [= Hi _].
  apply Hlvl, Level_to_Z_inj. lia.
Qed.

Lemma sampler_Check_charges_one_bucket_witness :
  let s := sampler (sample_core 7) tbl1 1000 1 2 in
  let ent := sample_Entry InfoLevel 5 "x" in
  let after := outcome_world (Core_Check s ent None empty_World) in
  load_counter tbl1 (counters_get InfoLevel "y") after
  = load_counter tbl1 (counters_get InfoLevel "y") empty_World /\
  load_counter tbl1 (counters_get WarnLevel "x") after
  = load_counter tbl1 (counters_get WarnLevel "x") empty_World.
Proof.
  cbv zeta.
  destruct (sampler_Check_charges_one_bucket (sample_core 7) tbl1 1000 1 2
              (sample_Entry InfoLevel 5 "x") None empty_World
              (counters_get InfoLevel "y") WarnLevel "x") as [H1 H2].
  - simpl. apply not_elem_of_nil.
  - split; [apply H1 | apply H2]; by vm_compute.
Defined.



Lemma IncCheckReset_count_range c t T :
  0 <= fst (IncCheckReset c t T) < 2 ^ 64.
Proof.
  unfold IncCheckReset, resetAt_CAS, counter_Store, counter_Inc.
  destruct (t <? resetAt c); cbn [fst resetAt].
  - unfold wrap_uint64. apply Z.mod_pos_bound. lia.
  - rewrite Z.eqb_refl. cbn [negb fst]. lia.
Qed.

(** X6: a sampler with thereafter 1, or built with first = -1 (which
    [uint64] turns into the largest count), samples nothing away: every entry
    of an admitted level is handed to the inner core after its bucket is
    charged, whatever the other parameter is, a zero thereafter included. *)
Theorem sampler_that_never_drops (inner : Core) (tbl : loc) (T F M : Z)
  (ent : Entry) (ce : option loc) (w : World) :
  Core_Enabled inner (ent_Level ent) = true ->
  M = 1 \/ F = uint64_of_int (-1) ->
  let ix := counters_get (ent_Level ent) (ent_Message ent) in
  let c := snd (IncCheckReset (load_counter tbl ix w) (ent_Time ent) T) in
  Core_Check (sampler inner tbl T F M) ent ce w
  = Core_Check inner ent ce (store_counter tbl ix c w).
Proof.
  intros Hen Hcase ix c. rewrite sampler_Check_step by done. cbn zeta.
  fold ix. fold c.
  pose proof (IncCheckReset_count_range (load_counter tbl ix w)
                (ent_Time ent) T) as Hn.
  destruct Hcase as [-> | ->].
  - rewrite Z.mod_1_r. cbn. by destruct (F <? _).
  - destruct (Z.ltb_spec (uint64_of_int (-1))
                (fst (IncCheckReset (load_counter tbl ix w) (ent_Time ent) T)))
      as [Hlt|]; [|reflexivity].
    exfalso. change (uint64_of_int (-1)) with (2 ^ 64 - 1) in Hlt. lia.
Qed.

Lemma sampler_that_never_drops_witness :
  let inner := sample_core 7 in
  let ent := sample_Entry InfoLevel 5 "x" in
  let ix := counters_get InfoLevel "x" in
  let w := store_counter tbl1 ix {| resetAt := 1000; counter_n := 41 |}
             empty_World in
  Core_Check (sampler inner tbl1 1000 (uint64_of_int (-1)) 0) ent None w
  = Core_Check inner ent None
      (store_counter tbl1 ix {| resetAt := 1000; counter_n := 42 |} w).
Proof.
  cbv zeta.
  apply (sampler_that_never_drops (sample_core 7) tbl1 1000
           (uint64_of_int (-1)) 0 (sample_Entry InfoLevel 5 "x") None
           (store_counter tbl1 (counters_get InfoLevel "x")
              {| resetAt := 1000; counter_n := 41 |} empty_World)).
  - reflexivity.
  - right. reflexivity.
Defined.



Lemma each_core_events call mc (ids : Core -> list nat) :
  Forall (fun m => forall w, exists evs,
            snd (call m w) = add_events evs w /\
            Forall (core_event (ids m)) evs) mc ->
  forall err w, exists evs,
    snd (each_core call mc err w) = add_events evs w /\
    Forall (core_event (concat (List.map ids mc))) evs.
Proof.
  assert (Hmono : forall ids1 ids2 e,
    (forall i, i ∈ ids1 -> i ∈ ids2) -> core_event ids1 e -> core_event ids2 e).
  { intros ids1 ids2 [id [b|d]|id|b] Hsub; cbn; auto. }
  induction 1 as [|m mc Hm _ IH]; intros err w; cbn [each_core].
  - exists []. split; [symmetry; apply add_events_nil | constructor].
  - destruct (Hm w) as (evs1 & H1 & Hev1). destruct (call m w) as [e w1].
    cbn [snd] in H1. subst w1.
    destruct (IH (multierr.Append err e) (add_events evs1 w))
      as (evs2 & H2 & Hev2).
    exists (evs1 ++ evs2). rewrite H2, add_events_app. split; [done|].
    cbn [List.map concat]. apply Forall_app. split.
    + eapply Forall_impl; [exact Hev1|]. intros e0. apply Hmono.
      intros i Hi. apply elem_of_app. by left.
    + eapply Forall_impl; [exact Hev2|]. intros e0. apply Hmono.
      intros i Hi. apply elem_of_app. by right.
Qed.

Lemma each_core_Sync_events mc :
  Forall (fun m => forall w,
            snd (Core_Sync m w) = add_events (List.map EvSync (outs m)) w) mc ->
  forall err w,
    snd (each_core Core_Sync mc err w)
    = add_events (List.map EvSync (concat (List.map outs mc))) w.
Proof.
  induction 1 as [|m mc Hm _ IH]; intros err w; cbn [each_core].
  - symmetry. apply add_events_nil.
  - specialize (Hm w). destruct (Core_Sync m w) as [e w1]. cbn [snd] in Hm.
    subst w1. rewrite IH, add_events_app. cbn [List.map concat].
    by rewrite List.map_app.
Qed.

(** X8: a core's [Write] and [Sync] only append to the trace, and only
    events on the core's own destinations: [Write] adds writes of encoded
    bytes, buffer releases and flushes there, never a diagnostic; [Sync]
    flushes every destination of the core exactly once, in member order, even
    when earlier flushes fail.  Checked entries, the pool and the sampler
    counters are left alone. *)
Theorem Write_and_Sync_stay_on_own_destinations (c : Core) (ent : Entry)
  (fields : list Field) (w : World) :
  (exists evs,
     snd (Core_Write c ent fields w) = add_events evs w /\
     Forall (core_event (outs c)) evs) /\
  snd (Core_Sync c w) = add_events (List.map EvSync (outs c)) w.
Proof.
  split.
  - revert w.
    induction c as [| enab enc out | mc IH | core counts T F M IH]
      using Core_nested_ind; intros w; cbn [Core_Write outs].
    + exists []. split; [symmetry; apply add_events_nil | constructor].
    + unfold ioCore_Write, ioCore_Sync, ws_do_Write, ws_do_Sync.
      destruct (EncodeEntry enc ent fields) as [buf encErr].
      destruct (is_nil encErr); cbn [negb];
        [|exists []; split; [symmetry; apply add_events_nil | constructor]].
      rewrite !emit_add_events, add_events_app.
      destruct (is_nil _); cbn [negb snd].
      * destruct (Level_gtb _ _); cbn [snd]; [rewrite add_events_app|];
          eexists; (split; [reflexivity|]);
          repeat constructor; cbn; apply list_elem_of_singleton; reflexivity.
      * eexists; split; [reflexivity|].
        repeat constructor; cbn; apply list_elem_of_singleton; reflexivity.
    + by apply (each_core_events _ mc outs).
    + apply IH.
  - revert w.
    induction c as [| enab enc out | mc IH | core counts T F M IH]
      using Core_nested_ind; intros w; cbn [Core_Sync outs].
    + symmetry. apply add_events_nil.
    + reflexivity.
    + by apply each_core_Sync_events.
    + apply IH.
Qed.

Lemma AddCore_collected ce ent c w :
  collected (Some (fst (AddCore ce ent c w))) (snd (AddCore ce ent c w))
  = collected ce w ++ [c] /\
  (forall l, ce = Some l -> fst (AddCore ce ent c w) = l).
Proof.
  unfold AddCore. destruct ce as [l|]; cbn [bootstrap].
  - cbn [fst snd collected]. rewrite load_store_ce. cbn. split; [done|].
    by intros l' [= ->].
  - pose proof (getCheckedEntry_clean w) as H.
    destruct (getCheckedEntry w) as [l w1]. cbn [fst snd collected] in *.
    rewrite !load_store_ce, H. cbn. done.
Qed.

Lemma Core_Check_collects (c : Core) (ent : Entry)
  (ce : option loc) (w : World) :
  sampler_free c = true ->
  exists r w',
    Core_Check c ent ce w = Ret r w' /\
    collected r w' = collected ce w ++ agreeing c (ent_Level ent) /\
    (forall l, ce = Some l -> r = Some l) /\
    (agreeing c (ent_Level ent) = [] -> r = ce /\ w' = w) /\
    (agreeing c (ent_Level ent) ≠ [] -> r ≠ None).
Proof.
  revert ce w.
  induction c as [| enab enc out | mc IH | core counts T F M IH]
    using Core_nested_ind; intros ce w Hfree;
    cbn [Core_Check agreeing sampler_free] in *; [| | |discriminate].
  - exists ce, w. rewrite app_nil_r. by repeat split.
  - destruct (enab (ent_Level ent)).
    + unfold_M.
      pose proof (AddCore_collected ce ent (ioCore enab enc out) w) as [H1 H2].
      destruct (AddCore _ _ _ w) as [l w']. cbn [fst snd] in *.
      exists (Some l), w'. repeat split; try done.
      intros l0 Hce. by rewrite (H2 l0 Hce).
    + exists ce, w. rewrite app_nil_r. by repeat split.
  - revert ce w. induction IH as [|m mc Hm _ IHmc]; intros ce w.
    + exists ce, w. cbn. rewrite app_nil_r. by repeat split.
    + cbn [forallb] in Hfree. apply andb_true_iff in Hfree as [Hf1 Hf2].
      destruct (Hm ce w Hf1) as (r1 & w1 & Heq1 & Hc1 & Hk1 & Hn1 & Hs1).
      destruct (IHmc Hf2 r1 w1) as (r2 & w2 & Heq2 & Hc2 & Hk2 & Hn2 & Hs2).
      exists r2, w2. cbn [multiCore_Check List.map concat]. unfold_M.
      rewrite Heq1, Heq2. split; [done|]. split; [|split; [|split]].
      * by rewrite Hc2, Hc1, app_assoc.
      * intros l Hce. apply Hk2, (Hk1 l Hce).
      * intros Hnil. apply app_eq_nil in Hnil as [Ha Hb].
        destruct (Hn1 Ha) as [-> ->]. by apply Hn2.
      * intros Hne.
        destruct (agreeing m (ent_Level ent)) as [|a l] eqn:Ha.
        -- destruct (Hn1 eq_refl) as [-> ->]. by apply Hs2.
        -- assert (Hr1 : r1 ≠ None) by (by apply Hs1).
           destruct r1 as [l1|]; [|done]. by rewrite (Hk2 l1 eq_refl).
Qed.

(** X9: on a core without samplers, [Check] hands every enabled
    single-destination core to the checked entry, in member order and after
    the cores the entry already held; it keeps the entry it was given, borrows
    one from the pool only when given nil and some core is enabled, and
    otherwise leaves the world untouched and returns what it was given. *)
Theorem Check_collects_enabled_cores (c : Core) (ent : Entry)
  (ce : option loc) (w : World) :
  sampler_free c = true ->
  exists r w',
    Core_Check c ent ce w = Ret r w' /\
    collected r w' = collected ce w ++ agreeing c (ent_Level ent) /\
    (forall l, ce = Some l -> r = Some l) /\
    (agreeing c (ent_Level ent) = [] -> r = ce /\ w' = w) /\
    (agreeing c (ent_Level ent) ≠ [] -> r ≠ None).
Proof. apply Core_Check_collects. Qed.

Lemma Check_collects_enabled_cores_witness :
  let a := NewCore message_Encoder (good_ws 7) (fun _ => true) in
  let b := NewCore message_Encoder (good_ws 8) (fun _ => false) in
  let c := NewCore message_Encoder (good_ws 9)
             (fun lvl => Level_gtb lvl DebugLevel) in
  let tee := NewTee [a; NewTee [b; c]] in
  exists r w',
    Core_Check tee (sample_Entry InfoLevel 3 "x") None empty_World = Ret r w' /\
    collected r w' = [a; c] /\ r ≠ None.
Proof.
  cbv zeta.
  destruct (Check_collects_enabled_cores
              (NewTee [NewCore message_Encoder (good_ws 7) (fun _ => true);
                       NewTee [NewCore message_Encoder (good_ws 8)
                                 (fun _ => false);
                               NewCore message_Encoder (good_ws 9)
                                 (fun lvl => Level_gtb lvl DebugLevel)]])
              (sample_Entry InfoLevel 3 "x") None empty_World eq_refl)
    as (r & w' & Heq & Hc & _ & _ & Hne).
  exists r, w'. split; [exact Heq|]. split; [exact Hc|].
  apply Hne. discriminate.
Defined.

Lemma each_core_app call a b err w :
  each_core call (a ++ b) err w
  = let '(e, w1) := each_core call a err w in each_core call b e w1.
Proof.
  revert err w. induction a as [|m a IH]; intros err w; [reflexivity|].
  cbn [app each_core]. destruct (call m w) as [e w1]. apply IH.
Qed.

Lemma each_core_from call ms err w :
  each_core call ms err w
  = let '(e, w') := each_core call ms nil_error w in
    (multierr.Append err e, w').
Proof.
  rewrite !each_core_run_members.
  destruct (run_members call ms w) as [es w']. by rewrite Append_app.
Qed.

Lemma each_core_flatten call ms pre post err w :
  (forall w0, call (multiCore ms) w0 = each_core call ms nil_error w0) ->
  each_core call (pre ++ multiCore ms :: post) err w
  = each_core call (pre ++ ms ++ post) err w.
Proof.
  intros Hinner. rewrite !each_core_app.
  destruct (each_core call pre err w) as [e1 w1].
  cbn [each_core]. rewrite Hinner, each_core_app.
  rewrite (each_core_from call ms e1 w1).
  by destruct (each_core call ms nil_error w1).
Qed.

Lemma multiCore_Check_app Check a b ce w :
  multiCore_Check Check (a ++ b) ce w
  = match multiCore_Check Check a ce w with
    | Ret ce' w' => multiCore_Check Check b ce' w'
    | Panicked v w' => Panicked v w'
    | Exited w' => Exited w'
    end.
Proof.
  revert ce w. induction a as [|m a IH]; intros ce w; [reflexivity|].
  cbn [app multiCore_Check]. unfold_M.
  destruct (Check m ce w); [apply IH | done | done].
Qed.

Lemma multiCore_Enabled_app Enabled a b :
  multiCore_Enabled Enabled (a ++ b)
  = multiCore_Enabled Enabled a || multiCore_Enabled Enabled b.
Proof.
  induction a as [|m a IH]; [reflexivity|].
  cbn [app multiCore_Enabled]. by destruct (Enabled m).
Qed.

(** X10: a tee that has a tee among its members behaves as the flat tee
    over the same cores in the same order: [Enabled], [Check], [Write] and
    [Sync] give the same results, errors and worlds. *)
Theorem nested_tee_is_flat_tee (pre ms post : list Core) (ent : Entry)
  (fields : list Field) (lvl : Level) (ce : option loc) (w : World) :
  let nested := multiCore (pre ++ multiCore ms :: post) in
  let flat := multiCore (pre ++ ms ++ post) in
  Core_Enabled nested lvl = Core_Enabled flat lvl /\
  Core_Check nested ent ce w = Core_Check flat ent ce w /\
  Core_Write nested ent fields w = Core_Write flat ent fields w /\
  Core_Sync nested w = Core_Sync flat w.
Proof.
  cbv zeta. cbn [Core_Enabled Core_Check Core_Write Core_Sync].
  split; [|split; [|split]].
  - rewrite !multiCore_Enabled_app. cbn [multiCore_Enabled Core_Enabled].
    destruct (multiCore_Enabled _ ms); [|reflexivity].
    by rewrite !orb_true_l.
  - rewrite !multiCore_Check_app.
    destruct (multiCore_Check _ pre ce w) as [ce1 w1| |]; try reflexivity.
    rewrite ?multiCore_Check_app.
    cbn [multiCore_Check Core_Check]. unfold_M. reflexivity.
  - by apply each_core_flatten.
  - by apply each_core_flatten.
Qed.

Lemma each_core_ext call1 call2 mc1 mc2 err w :
  Forall2 (fun m1 m2 => forall w0, call1 m1 w0 = call2 m2 w0) mc1 mc2 ->
  each_core call1 mc1 err w = each_core call2 mc2 err w.
Proof.
  intros H. revert err w. induction H as [|m1 m2 mc1 mc2 Hm _ IH];
    intros err w; [reflexivity|].
  cbn [each_core]. rewrite Hm. destruct (call2 m2 w). apply IH.
Qed.

(** X11: binding fields with [With] changes neither the levels a core is
    enabled for, nor the destinations it reaches and flushes, nor the counter
    tables its samplers use, however the core is composed. *)
Theorem With_keeps_levels_and_destinations (c : Core) (fields : list Field)
  (lvl : Level) (w : World) :
  Core_Enabled (Core_With c fields) lvl = Core_Enabled c lvl /\
  outs (Core_With c fields) = outs c /\
  tables (Core_With c fields) = tables c /\
  sampler_free (Core_With c fields) = sampler_free c /\
  Core_Sync (Core_With c fields) w = Core_Sync c w.
Proof.
  split; [apply Enabled_With|]. split; [|split; [apply tables_With|split]].
  - induction c as [| enab enc out | mc IH | core counts T F M IH]
      using Core_nested_ind; cbn [Core_With outs]; try done.
    f_equal. induction IH as [|m mc Hm _ IHmc]; [reflexivity|].
    cbn [List.map]. by rewrite Hm, IHmc.
  - induction c as [| enab enc out | mc IH | core counts T F M IH]
      using Core_nested_ind; cbn [Core_With sampler_free]; try done.
    induction IH as [|m mc Hm _ IHmc]; [reflexivity|].
    cbn [List.map forallb]. by rewrite Hm, IHmc.
  - revert w.
    induction c as [| enab enc out | mc IH | core counts T F M IH]
      using Core_nested_ind; intros w; cbn [Core_With Core_Sync]; try done.
    apply each_core_ext.
    induction IH as [|m mc Hm _ IHmc]; cbn [List.map]; by constructor.
Qed.

(** ** The sink registry: registering and resolving *)

Section Registry_round_trips.
Import sink.

Variable Map_unicode_ToLower : string -> string.
Variable os_OpenFile : string -> list OpenFlag -> Z -> nat * error.
Variable url_Parse : string -> URL * error.

Lemma normalizeScheme_rest_ok s r n :
  normalizeScheme_rest s r = Returns (n, nil_error) ->
  n = s /\ all_bytes (fun c => byte_in "a" "z" c || byte_in "0" "9" c
                      || (byte_is "." c || byte_is "+" c || byte_is "-" c)) r
           = true.
Proof.
  induction r as [|c r IH]; cbn [normalizeScheme_rest all_bytes].
  - by intros [= ->].
  - destruct (byte_in "a" "z" c); [exact IH|].
    destruct (byte_in "0" "9" c); [exact IH|].
    destruct (byte_is "." c || byte_is "+" c || byte_is "-" c); [exact IH|].
    discriminate.
Qed.

(** What a successful [normalizeScheme] returns: the lowercased scheme, not
    empty, a lowercase letter first and then lowercase letters, digits and
    the three signs. *)
Lemma normalizeScheme_ok s n :
  normalizeScheme Map_unicode_ToLower s = Returns (n, nil_error) ->
  n = strings_ToLower Map_unicode_ToLower s /\
  exists first rest,
    n = String first rest /\
    byte_in "a" "z" first = true /\
    all_bytes (fun c => byte_in "a" "z" c || byte_in "0" "9" c
               || (byte_is "." c || byte_is "+" c || byte_is "-" c)) rest
    = true.
Proof.
  unfold normalizeScheme.
  destruct (strings_ToLower Map_unicode_ToLower s) as [|first rest];
    [discriminate|].
  destruct (_ || _) eqn:Hfirst; [discriminate|].
  intros H. apply normalizeScheme_rest_ok in H as [-> Hrest].
  split; [reflexivity|]. exists first, rest. split; [reflexivity|].
  split; [|exact Hrest].
  apply orb_false_iff in Hfirst as [H1 H2]. unfold byte_in.
  apply Z.ltb_ge in H1, H2. apply andb_true_iff. split; by apply Z.leb_le.
Qed.

Lemma RegisterSink_ok scheme factory reg reg' :
  RegisterSink Map_unicode_ToLower scheme factory reg
  = Returns (nil_error, reg') ->
  let n := strings_ToLower Map_unicode_ToLower scheme in
  normalizeScheme Map_unicode_ToLower scheme = Returns (n, nil_error) /\
  reg !! n = None /\ reg' = <[n := factory]> reg.
Proof.
  unfold RegisterSink. case_bool_decide; [discriminate|].
  destruct (normalizeScheme _ scheme) as [[n e]|] eqn:Hnorm; [|discriminate].
  destruct e as [|x e]; cbn [is_nil negb]; [|discriminate].
  destruct (normalizeScheme_ok scheme n Hnorm) as [-> _].
  destruct (reg !! _) eqn:Hlook; [discriminate|].
  by intros [= <-].
Qed.

(** X12: after a registration that returned no error, resolving a locator
    whose parsed scheme is the lowercased registered scheme calls the
    registered factory on the parsed locator and returns exactly its
    result. *)
Theorem register_then_resolve (scheme raw : string) (factory : Factory)
  (reg reg' : gmap string Factory) (u : URL) :
  RegisterSink Map_unicode_ToLower scheme factory reg
  = Returns (nil_error, reg') ->
  url_Parse raw = (u, nil_error) ->
  Scheme u = strings_ToLower Map_unicode_ToLower scheme ->
  newSink url_Parse raw reg' = factory u.
Proof.
  intros Hreg Hparse Hscheme.
  destruct (RegisterSink_ok _ _ _ _ Hreg) as (Hnorm & _ & ->).
  destruct (normalizeScheme_ok _ _ Hnorm) as (_ & first & rest & Hn & _).
  unfold newSink. rewrite Hparse. cbn [is_nil negb].
  rewrite bool_decide_false by (rewrite Hscheme, Hn; discriminate).
  by rewrite Hscheme, lookup_insert_eq.
Qed.

(** X13: resolving never guesses.  A locator that does
    not parse gives an error; one whose scheme has no factory gives the
    not-found error and no sink; and an empty scheme stands for "file", so on
    the initial registry the bare paths "stdout" and "stderr" resolve to the
    standard streams behind a [nopCloserSink], whose [Close] returns nil
    and closes nothing. *)
Theorem resolve_defaults_and_failures (raw : string)
  (reg : gmap string Factory) (closed : Closed) :
  let u := fst (url_Parse raw) in
  let scheme := if bool_decide (Scheme u = EmptyString) then schemeFile
                else Scheme u in
  (if negb (is_nil (snd (url_Parse raw))) then
     fst (newSink url_Parse raw reg) = None /\
     is_nil (snd (newSink url_Parse raw reg)) = false
   else
     match reg !! scheme with
     | None => newSink url_Parse raw reg = (None, errSinkNotFound scheme)
     | Some factory =>
         newSink url_Parse raw reg
         = factory (if bool_decide (Scheme u = EmptyString)
                    then with_Scheme schemeFile u else u)
     end) /\
  newSink parse_as_path "stdout" (resetSinkRegistry os_OpenFile)
  = (Some (nopCloserSink Stdout), nil_error) /\
  newSink parse_as_path "stderr" (resetSinkRegistry os_OpenFile)
  = (Some (nopCloserSink Stderr), nil_error) /\
  Sink_Close (nopCloserSink Stdout) closed = (nil_error, closed) /\
  Sink_Close (nopCloserSink Stderr) closed = (nil_error, closed).
Proof.
  cbv zeta. split; [|repeat split; by vm_compute].
  unfold newSink. destruct (url_Parse raw) as [u err]. cbn [fst snd].
  destruct (is_nil err); cbn [negb]; [|done].
  case_bool_decide; cbn [Scheme with_Scheme]; by destruct (reg !! _).
Qed.

(** X14: a registration never replaces or removes a factory: every scheme
    registered before keeps its factory whatever the call returns.  And after
    a registration that went through, registering again under a scheme with
    the same lowercased form, the same spelling or another capitalisation,
    returns an error and leaves the registry as it is. *)
Theorem RegisterSink_never_overwrites (scheme scheme2 : string)
  (factory factory2 : Factory) (reg reg' : gmap string Factory)
  (e : error) (k : string) (g : Factory) :
  RegisterSink Map_unicode_ToLower scheme factory reg = Returns (e, reg') ->
  (reg !! k = Some g -> reg' !! k = Some g) /\
  (e = nil_error -> scheme2 ≠ EmptyString ->
   strings_ToLower Map_unicode_ToLower scheme2
   = strings_ToLower Map_unicode_ToLower scheme ->
   exists e2,
     RegisterSink Map_unicode_ToLower scheme2 factory2 reg'
     = Returns (e2, reg') /\ is_nil e2 = false).
Proof.
  intros Hreg. split.
  - intros Hk. revert Hreg. unfold RegisterSink.
    case_bool_decide; [by intros [= _ <-]|].
    destruct (normalizeScheme _ scheme) as [[n e0]|]; [|discriminate].
    destruct (is_nil e0); cbn [negb]; [|by intros [= _ <-]].
    destruct (reg !! n) eqn:Hn; [by intros [= _ <-]|].
    intros [= _ <-]. rewrite lookup_insert_ne; [done|]. congruence.
  - intros -> Hne Hsame.
    destruct (RegisterSink_ok _ _ _ _ Hreg) as (Hnorm & _ & ->).
    unfold RegisterSink. rewrite bool_decide_false by done.
    assert (Hnorm2 : normalizeScheme Map_unicode_ToLower scheme2
                     = normalizeScheme Map_unicode_ToLower scheme)
      by (unfold normalizeScheme; by rewrite Hsame).
    rewrite Hnorm2, Hnorm. cbn [is_nil negb].
    rewrite lookup_insert_eq. by eexists.
Qed.

Lemma all_bytes_impl (p q : ascii -> bool) s :
  (forall c, p c = true -> q c = true) ->
  all_bytes p s = true -> all_bytes q s = true.
Proof.
  intros Hpq. induction s as [|c s IH]; cbn [all_bytes]; [done|].
  intros H. apply andb_true_iff in H as [Hc Hs].
  by rewrite (Hpq c Hc), IH.
Qed.

Lemma map_bytes_id (f : ascii -> ascii) (p : ascii -> bool) s :
  (forall c, p c = true -> f c = c) ->
  all_bytes p s = true -> map_bytes f s = s.
Proof.
  intros Hf. induction s as [|c s IH]; cbn [all_bytes map_bytes]; [done|].
  intros H. apply andb_true_iff in H as [Hc Hs]. by rewrite (Hf c Hc), IH.
Qed.

Lemma scheme_byte_facts c :
  byte_in "a" "z" c || byte_in "0" "9" c
  || (byte_is "." c || byte_is "+" c || byte_is "-" c) = true ->
  (byte_of c <? RuneSelf) = true /\ lower_byte c = c /\ scheme_char c = true.
Proof. destruct c as [[] [] [] [] [] [] [] []]; cbn; intros H; try done. Qed.

(** X15: a scheme that [normalizeScheme] accepts comes back in a form that
    is stable and valid: it is not empty, it satisfies the scheme syntax, and
    normalising it again returns it unchanged.  So every key that
    [RegisterSink] inserts is a lowercase scheme that resolves to itself. *)
Theorem normalizeScheme_is_idempotent (s n : string) (factory : Factory)
  (reg reg' : gmap string Factory) :
  normalizeScheme Map_unicode_ToLower s = Returns (n, nil_error) ->
  n ≠ EmptyString /\
  valid_scheme n = true /\
  strings_ToLower Map_unicode_ToLower n = n /\
  normalizeScheme Map_unicode_ToLower n = Returns (n, nil_error) /\
  (RegisterSink Map_unicode_ToLower s factory reg
   = Returns (nil_error, reg') -> reg' !! n = Some factory).
Proof.
  intros Hnorm.
  destruct (normalizeScheme_ok s n Hnorm)
    as (Hn & first & rest & -> & Hfirst & Hrest).
  assert (Hall : all_bytes
            (fun c => byte_in "a" "z" c || byte_in "0" "9" c
                      || (byte_is "." c || byte_is "+" c || byte_is "-" c))
            (String first rest) = true).
  { cbn [all_bytes]. by rewrite Hfirst, Hrest. }
  assert (Hlower : strings_ToLower Map_unicode_ToLower (String first rest)
                   = String first rest).
  { unfold strings_ToLower.
    rewrite (all_bytes_impl _ (fun c => byte_of c <? RuneSelf) _
               (fun c H => proj1 (scheme_byte_facts c H)) Hall).
    apply (map_bytes_id _ _ _
             (fun c H => proj1 (proj2 (scheme_byte_facts c H))) Hall). }
  split; [discriminate|]. split; [|split; [exact Hlower|split]].
  - cbn [valid_scheme]. unfold is_letter. rewrite Hfirst. cbn [orb andb].
    apply (all_bytes_impl _ _ _
             (fun c H => proj2 (proj2 (scheme_byte_facts c H))) Hrest).
  - unfold normalizeScheme in *. rewrite Hlower. rewrite <- Hn in Hnorm.
    exact Hnorm.
  - intros Hreg. destruct (RegisterSink_ok _ _ _ _ Hreg) as (_ & _ & ->).
    cbv zeta. rewrite <- Hn. apply lookup_insert_eq.
Qed.

End Registry_round_trips.

Lemma register_then_resolve_witness :
  let initial := sink.resetSinkRegistry sink.no_OpenFile in
  let reg' := <["memory"%string := sink.sample_Factory]> initial in
  newSink parse_memory "memory://x" reg'
  = sink.sample_Factory (fst (parse_memory "memory://x")).
Proof.
  cbv zeta.
  apply (register_then_resolve sink.ascii_ToLower parse_memory
           "Memory" "memory://x" sink.sample_Factory
           (sink.resetSinkRegistry sink.no_OpenFile)).
  - by vm_compute.
  - reflexivity.
  - by vm_compute.
Defined.

Lemma RegisterSink_never_overwrites_witness :
  let initial := sink.resetSinkRegistry sink.no_OpenFile in
  let reg' := <["memory"%string := sink.sample_Factory]> initial in
  reg' !! "file"%string = Some (sink.newFileSink sink.no_OpenFile) /\
  exists e2,
    sink.RegisterSink sink.ascii_ToLower "MEMORY" sink.sample_Factory reg'
    = sink.Returns (e2, reg') /\ is_nil e2 = false.
Proof.
  cbv zeta.
  destruct (RegisterSink_never_overwrites sink.ascii_ToLower
              "Memory" "MEMORY" sink.sample_Factory sink.sample_Factory
              (sink.resetSinkRegistry sink.no_OpenFile)
              (<["memory"%string := sink.sample_Factory]>
                 (sink.resetSinkRegistry sink.no_OpenFile))
              nil_error "file" (sink.newFileSink sink.no_OpenFile))
    as [H1 H2].
  - by vm_compute.
  - split; [apply H1; by vm_compute|].
    apply H2; [reflexivity | discriminate | by vm_compute].
Defined.

Lemma normalizeScheme_is_idempotent_witness :
  let initial := sink.resetSinkRegistry sink.no_OpenFile in
  "a.b+c-9"%string ≠ EmptyString /\
  sink.valid_scheme "a.b+c-9" = true /\
  sink.strings_ToLower sink.ascii_ToLower "a.b+c-9" = "a.b+c-9"%string /\
  sink.normalizeScheme sink.ascii_ToLower "a.b+c-9"
  = sink.Returns ("a.b+c-9"%string, nil_error) /\
  (sink.RegisterSink sink.ascii_ToLower "A.B+C-9" sink.sample_Factory initial
   = sink.Returns (nil_error,
                   <["a.b+c-9"%string := sink.sample_Factory]> initial) ->
   <["a.b+c-9"%string := sink.sample_Factory]> initial !! "a.b+c-9"%string
   = Some sink.sample_Factory).
Proof.
  cbv zeta.
  apply (normalizeScheme_is_idempotent sink.ascii_ToLower "A.B+C-9" "a.b+c-9"
           sink.sample_Factory (sink.resetSinkRegistry sink.no_OpenFile)).
  by vm_compute.
Defined.

(** ** The logger: levels that are switched off, names *)

Lemma Should_None_fresh ent a w :
  let l := fst (Should None ent a w) in
  let w' := snd (Should None ent a w) in
  load_ce l w' = with_should a (with_Entry ent new_CheckedEntry) /\
  w_trace w' = w_trace w /\ w_counters w' = w_counters w.
Proof.
  unfold Should, bootstrap.
  pose proof (getCheckedEntry_clean w) as Hclean.
  pose proof (getCheckedEntry_counters w) as Hcnt.
  assert (Htr : w_trace (snd (getCheckedEntry w)) = w_trace w).
  { unfold getCheckedEntry, cePool_Get.
    by destruct (_ ≫= _) as [[i l]|]. }
  destruct (getCheckedEntry w) as [l w1]. cbn [fst snd] in *.
  by rewrite !load_store_ce, Hclean.
Qed.

(** A log call at a level the core is not enabled for. *)
Lemma Logger_log_disabled log lvl msg fields w :
  Core_Enabled (log_core log) lvl = false ->
  exists w',
    Logger_log log lvl msg fields w = finish (terminal_action log lvl) msg w' /\
    w_trace w' = w_trace w /\ w_counters w' = w_counters w.
Proof.
  intros Hen. unfold Logger_log, Logger_check. unfold_M. unfold time_Now.
  set (ent := {| ent_Level := lvl; ent_Message := msg |}).
  rewrite (Core_Check_disabled (log_core log) ent None (set_clockIdx S w))
    by exact Hen.
  rewrite willWrite_eq. change (ent_Level ent) with lvl. cbn [negb].
  assert (Hterm : forall a, a ≠ WriteThenNoop -> terminal_action log lvl = a ->
    exists w',
      match (let '(a0, w') := check_Should None ent a (set_clockIdx S w) in
             Ret a0 w') with
      | Ret ce w1 =>
          if bool_decide (ce ≠ None) then CheckedEntry_Write ce fields w1
          else Ret tt w1
      | Panicked v w1 => Panicked v w1
      | Exited w1 => Exited w1
      end = finish a msg w' /\
      w_trace w' = w_trace w /\ w_counters w' = w_counters w).
  { intros a Ha Hact. unfold check_Should.
    pose proof (Should_None_fresh ent a (set_clockIdx S w)) as Hs.
    cbv zeta in Hs. destruct (Should None ent a (set_clockIdx S w)) as [l w1].
    cbn [fst snd] in Hs. destruct Hs as (Hload & Htr & Hcnt).
    rewrite willWrite_eq.
    rewrite CheckedEntry_Write_clean by (by rewrite Hload). cbv zeta.
    rewrite Hload. cbn. eexists. split; [reflexivity|]. by split. }
  assert (Hplain :
    exists w',
      (if bool_decide (@None loc ≠ None) then CheckedEntry_Write None fields
       else fun w0 => Ret tt w0) (set_clockIdx S w)
      = finish WriteThenNoop msg w' /\
      w_trace w' = w_trace w /\ w_counters w' = w_counters w).
  { exists (set_clockIdx S w). split; [|by split].
    by destruct (bool_decide _). }
  assert (Hterm' : forall a, a ≠ WriteThenNoop -> terminal_action log lvl = a ->
    exists w',
      match
        match (let '(a0, w') := check_Should None ent a (set_clockIdx S w) in
               Ret a0 w') with
        | Ret a0 w' => Ret a0 w'
        | Panicked v w' => Panicked v w'
        | Exited w' => Exited w'
        end
      with
      | Ret a0 w' =>
          (if bool_decide (a0 ≠ None) then CheckedEntry_Write a0 fields
           else fun w0 => Ret tt w0) w'
      | Panicked v w' => Panicked v w'
      | Exited w' => Exited w'
      end = finish a msg w' /\
      w_trace w' = w_trace w /\ w_counters w' = w_counters w).
  { intros a Ha Hact. destruct (Hterm a Ha Hact) as (w' & Hw' & Hr).
    exists w'. split; [|exact Hr]. rewrite <- Hw'.
    destruct (check_Should None ent a _) as [a0 w0].
    by destruct (bool_decide (a0 ≠ None)). }
  clear Hterm.
  destruct lvl; cbn [terminal_action] in *; try exact Hplain;
    try (apply Hterm'; [discriminate | reflexivity]).
  destruct (log_development log); [|exact Hplain].
  apply Hterm'; [discriminate | reflexivity].
Qed.

(** X16: a log call at a level the logger's core is not enabled for costs
    no I/O: nothing is written or flushed anywhere, no sampler bucket is
    charged, and the call ends as the level demands, returning for an
    ordinary level, panicking with the message or leaving the process for a
    terminal one. *)
Theorem log_at_disabled_level_writes_nothing (log : Logger) (lvl : Level)
  (msg : string) (fields : list Field) (w : World) :
  Core_Enabled (log_core log) lvl = false ->
  exists w',
    Logger_log log lvl msg fields w = finish (terminal_action log lvl) msg w' /\
    w_trace w' = w_trace w /\ w_counters w' = w_counters w.
Proof. apply Logger_log_disabled. Qed.

Lemma log_at_disabled_level_writes_nothing_witness :
  let log := sample_Logger (NewCore message_Encoder (bad_ws 8)
                              (fun lvl => Level_gtb lvl WarnLevel)) in
  exists w',
    Logger_log log InfoLevel "x" [] empty_World
    = finish (terminal_action log InfoLevel) "x" w' /\
    w_trace w' = w_trace empty_World /\
    w_counters w' = w_counters empty_World.
Proof.
  cbv zeta.
  apply (log_at_disabled_level_writes_nothing
           (sample_Logger (NewCore message_Encoder (bad_ws 8)
                             (fun lvl => Level_gtb lvl WarnLevel)))
           InfoLevel "x" [] empty_World).
  reflexivity.
Defined.

(** X17: the logger [NewNop] returns never writes: at every level, for
    every message and in every world a log call adds nothing to the trace,
    not even to its own error output; [Debug] to [Error] and [DPanic] simply
    return, [Panic] panics with the message and [Fatal] leaves the
    process. *)
Theorem NewNop_never_writes (lvl : Level) (msg : string)
  (fields : list Field) (w : World) :
  exists w',
    Logger_log NewNop lvl msg fields w
    = match lvl with
      | PanicLevel => Panicked (PanicString msg) w'
      | FatalLevel => Exited w'
      | _ => Ret tt w'
      end /\
    w_trace w' = w_trace w /\
    snd (Logger_Sync NewNop w) = w.
Proof.
  destruct (Logger_log_disabled NewNop lvl msg fields w eq_refl)
    as (w' & Heq & Htr & _).
  exists w'. split; [|split; [exact Htr | reflexivity]].
  rewrite Heq. by destruct lvl.
Qed.

Lemma string_append_assoc (a b c : string) :
  ((a ++ b) ++ c = a ++ (b ++ c))%string.
Proof.
  induction a as [|x a IH]; [reflexivity|].
  change (String x ((a ++ b) ++ c) = String x (a ++ (b ++ c)))%string.
  by rewrite IH.
Qed.

Lemma nonempty_true s : s ≠ EmptyString -> nonempty s = true.
Proof. intros H. unfold nonempty. by rewrite bool_decide_false. Qed.

Lemma Logger_Named_name log s :
  log_name (Logger_Named log s)
  = (if nonempty s
     then if nonempty (log_name log)
          then (log_name log ++ "." ++ s)%string else s
     else log_name log) /\
  log_core (Logger_Named log s) = log_core log /\
  log_errorOutput (Logger_Named log s) = log_errorOutput log /\
  log_development (Logger_Named log s) = log_development log.
Proof.
  unfold Logger_Named, nonempty, strings_Join2.
  destruct (bool_decide (s = EmptyString)); [done|].
  by destruct (bool_decide (log_name log = EmptyString)).
Qed.

(** X18: [Named] builds the logger's name as the dot-joined path of the
    non-empty segments it was given, after the name the logger already had;
    empty segments are skipped, and nothing but the name changes. *)
Theorem Named_joins_segments (log : Logger) (segs : list string) :
  let named := fold_left Logger_Named segs log in
  log_name named
  = String.concat "." (List.filter nonempty (log_name log :: segs)) /\
  log_core named = log_core log /\
  log_errorOutput named = log_errorOutput log /\
  log_development named = log_development log.
Proof.
  cbv zeta. revert log. induction segs as [|s segs IH]; intros log.
  - cbn [fold_left List.filter]. split; [|done].
    destruct (nonempty (log_name log)) eqn:Hn; [reflexivity|].
    unfold nonempty in Hn. apply negb_false_iff, bool_decide_eq_true in Hn.
    by rewrite Hn.
  - cbn [fold_left].
    destruct (IH (Logger_Named log s)) as (Hname & Hc & He & Hd).
    destruct (Logger_Named_name log s) as (Hn1 & Hc1 & He1 & Hd1).
    rewrite Hname, Hc, He, Hd, Hn1, Hc1, He1, Hd1. split; [|done].
    cbn [List.filter].
    destruct (nonempty s) eqn:Hs; [|reflexivity].
    destruct (nonempty (log_name log)) eqn:Hn.
    + rewrite nonempty_true by (by destruct (log_name log)).
      destruct (List.filter nonempty segs) as [|y ys]; [reflexivity|].
      cbn [String.concat]. by rewrite !string_append_assoc.
    + by rewrite Hs.
Qed.

(** ** The logger: what a log call writes, and where *)

Lemma sampler_free_thereafter_nonzero c :
  sampler_free c = true -> thereafter_nonzero c = true.
Proof.
  induction c as [| enab enc out | mc IH | core counts T F M IH]
    using Core_nested_ind; cbn [sampler_free thereafter_nonzero]; try done.
  induction IH as [|m mc Hm _ IHmc]; [done|]. cbn [forallb].
  intros H. apply andb_true_iff in H as [H1 H2]. by rewrite Hm, IHmc.
Qed.

(** The annotations of [check] set the error output and touch nothing of
    the entry but its caller and its stack. *)
Lemma annotate_entry log l w :
  let c := load_ce l w in
  let c' := load_ce l (annotate log l w) in
  ce_cores c' = ce_cores c /\
  ce_ErrorOutput c' = Some (log_errorOutput log) /\
  ent_Level (ce_Entry c') = ent_Level (ce_Entry c) /\
  ent_Time (ce_Entry c') = ent_Time (ce_Entry c) /\
  ent_LoggerName (ce_Entry c') = ent_LoggerName (ce_Entry c).
Proof.
  cbv zeta. unfold annotate.
  destruct (log_addCaller log).
  - destruct (w_Caller _ _) as [[[pc file] line] ok].
    destruct ok; cbn [NewEntryCaller negb Defined_ no_caller];
      unfold time_Now, report, ws_do_Sync, ws_do_Write, emit; cbn [snd fst];
      destruct (log_addStack log _);
      unfold load_ce, store_ce, set_entries, set_trace, set_clockIdx;
      cbn [w_entries]; rewrite ?lookup_insert_eq; cbn; done.
  - destruct (log_addStack log _);
      unfold load_ce, store_ce, set_entries; cbn [w_entries];
      rewrite ?lookup_insert_eq; cbn; done.
Qed.

Lemma check_Should_Some l ent a w :
  check_Should (Some l) ent a w
  = (Some l, store_ce l (with_should a (load_ce l w)) w).
Proof. reflexivity. Qed.

(** On a core without samplers at a level some core is enabled for,
    [check] returns an entry that holds the enabled cores, the logger's
    error output and the entry it built. *)
Lemma Logger_check_collects log lvl msg w :
  sampler_free (log_core log) = true ->
  agreeing (log_core log) lvl ≠ [] ->
  exists l w1,
    Logger_check log lvl msg w = Ret (Some l) w1 /\
    ce_cores (load_ce l w1) = agreeing (log_core log) lvl /\
    ce_ErrorOutput (load_ce l w1) = Some (log_errorOutput log) /\
    ent_Level (ce_Entry (load_ce l w1)) = lvl /\
    ent_Time (ce_Entry (load_ce l w1)) = w_clock w (w_clockIdx w) /\
    ent_LoggerName (ce_Entry (load_ce l w1)) = log_name log.
Proof.
  intros Hfree Hagree. unfold Logger_check. unfold_M. unfold time_Now.
  set (ent := {| ent_Level := lvl; ent_Message := msg |}).
  destruct (Core_Check_collects (log_core log) ent None (set_clockIdx S w)
              Hfree) as (r1 & w1 & Heq & Hcol & _ & _ & Hsome).
  destruct (Core_Check_returns _ (sampler_free_thereafter_nonzero _ Hfree)
              ent None (set_clockIdx S w) I) as (r1' & w1' & Heq' & Hok).
  rewrite Heq in Heq'. injection Heq' as <- <-.
  rewrite Heq, willWrite_eq. change (ent_Level ent) with lvl in *.
  destruct r1 as [l|]; [|by destruct (Hsome Hagree)]. clear Hsome.
  cbn [collected app] in Hcol. destruct Hok as (_ & Hent & _).
  set (step := match lvl with
               | PanicLevel => _ | FatalLevel => _ | DPanicLevel => _
               | _ => _ end).
  assert (Hstep : exists w2, step w1 = (Some l, w2) /\
            ce_cores (load_ce l w2) = ce_cores (load_ce l w1) /\
            ce_Entry (load_ce l w2) = ce_Entry (load_ce l w1)).
  { assert (Hsh : forall a, exists w2,
              check_Should (Some l) ent a w1 = (Some l, w2) /\
              ce_cores (load_ce l w2) = ce_cores (load_ce l w1) /\
              ce_Entry (load_ce l w2) = ce_Entry (load_ce l w1)).
    { intros a. rewrite check_Should_Some. eexists. split; [reflexivity|].
      by rewrite load_store_ce. }
    subst step. destruct lvl; try (by exists w1); try apply Hsh.
    destruct (log_development log); [apply Hsh | by exists w1]. }
  clearbody step. destruct Hstep as (w2 & -> & Hc2 & He2).
  cbn [negb]. exists l, (annotate log l w2). split; [reflexivity|].
  destruct (annotate_entry log l w2) as (Hc & Heo & Hl & Ht & Hn).
  rewrite Hc, Heo, Hl, Ht, Hn, Hc2, He2, Hcol, Hent. by repeat split.
Qed.

(** X19: a log call on a logger whose core has no sampler, at a level
    some single-destination core is enabled for: the entry, stamped with the
    level, the message, the logger's name and the time of the call, is
    written to exactly the enabled cores, in member order and whatever each
    write returns; their combined error goes to the logger's error output;
    the checked entry returns to the pool; and the call then ends as the
    level demands. *)
Theorem log_writes_to_enabled_cores (log : Logger) (lvl : Level)
  (msg : string) (fields : list Field) (w : World) :
  sampler_free (log_core log) = true ->
  agreeing (log_core log) lvl ≠ [] ->
  exists l w1 E,
    Logger_check log lvl msg w = Ret (Some l) w1 /\
    ce_Entry (load_ce l w1) = E /\
    ent_Level E = lvl /\ ent_Message E = msg /\
    ent_LoggerName E = log_name log /\
    ent_Time E = w_clock w (w_clockIdx w) /\
    Logger_log log lvl msg fields w =
      let written :=
        run_members (fun m => Core_Write m E fields)
          (agreeing (log_core log) lvl)
          (store_ce l (with_dirty true (load_ce l w1)) w1) in
      finish (terminal_action log lvl) msg
        (putCheckedEntry (Some l)
           (report_write_error (Some (log_errorOutput log))
              (concat (fst written)) (snd written))).
Proof.
  intros Hfree Hagree.
  destruct (Logger_check_collects log lvl msg w Hfree Hagree)
    as (l & w1 & Hcheck & Hcores & Heo & Hl & Ht & Hn).
  destruct (Logger_check_returns log lvl msg w
              (sampler_free_thereafter_nonzero _ Hfree))
    as (r & w1' & Hcheck' & Hr).
  rewrite Hcheck in Hcheck'. injection Hcheck' as <- <-.
  destruct Hr as (Hd & Hs & Hm).
  exists l, w1, (ce_Entry (load_ce l w1)). repeat split; try done.
  unfold Logger_log. unfold_M. rewrite Hcheck, willWrite_eq.
  rewrite CheckedEntry_Write_clean by done. cbv zeta.
  by rewrite Hs, Hm, Hcores, Heo.
Qed.

Lemma log_writes_to_enabled_cores_witness :
  let a := NewCore message_Encoder (good_ws 7) (fun _ => true) in
  let b := NewCore message_Encoder (bad_ws 8)
             (fun lvl => Level_gtb lvl InfoLevel) in
  let log := sample_Logger (NewTee [a; b]) in
  exists l w1 E,
    Logger_check log ErrorLevel "x" empty_World = Ret (Some l) w1 /\
    ce_Entry (load_ce l w1) = E /\
    ent_Level E = ErrorLevel /\ ent_Message E = "x"%string /\
    ent_LoggerName E = log_name log /\
    ent_Time E = w_clock empty_World (w_clockIdx empty_World) /\
    Logger_log log ErrorLevel "x" [] empty_World =
      let written :=
        run_members (fun m => Core_Write m E []) [a; b]
          (store_ce l (with_dirty true (load_ce l w1)) w1) in
      finish (terminal_action log ErrorLevel) "x"
        (putCheckedEntry (Some l)
           (report_write_error (Some (log_errorOutput log))
              (concat (fst written)) (snd written))).
Proof.
  cbv zeta.
  apply (log_writes_to_enabled_cores
           (sample_Logger
              (NewTee [NewCore message_Encoder (good_ws 7) (fun _ => true);
                       NewCore message_Encoder (bad_ws 8)
                         (fun lvl => Level_gtb lvl InfoLevel)]))
           ErrorLevel "x" [] empty_World).
  - reflexivity.
  - discriminate.
Defined.

(** ** entry.go: the caller's path *)

Lemma string_app_cons x (a b : string) :
  (String x a ++ b)%string = String x (a ++ b)%string.
Proof. reflexivity. Qed.

Lemma LastIndexByte_lower s c : -1 <= LastIndexByte s c.
Proof.
  induction s as [|a s IH]; cbn [LastIndexByte]; [lia|]. cbv zeta.
  destruct (0 <=? LastIndexByte s c) eqn:E; [lia|].
  destruct (Ascii.eqb a c); lia.
Qed.

Lemma LastIndexByte_no_slash s :
  no_slash s = true -> LastIndexByte s "/" = -1.
Proof.
  unfold no_slash. induction s as [|a s IH]; cbn [sink.all_bytes LastIndexByte];
    [done|]. intros H. apply andb_true_iff in H as [Ha Hs].
  rewrite (IH Hs). cbv zeta. change (0 <=? -1) with false. cbv iota.
  apply negb_true_iff in Ha. by rewrite Ha.
Qed.

Lemma LastIndexByte_last_slash a b :
  no_slash b = true ->
  LastIndexByte (a ++ String "/" b) "/" = Z.of_nat (String.length a).
Proof.
  intros Hb. induction a as [|x a IH].
  - change (LastIndexByte (String "/" b) "/" = 0). cbn [LastIndexByte].
    rewrite (LastIndexByte_no_slash b Hb). reflexivity.
  - rewrite string_app_cons. cbn [LastIndexByte String.length]. rewrite IH.
    cbv zeta. destruct (0 <=? Z.of_nat (String.length a)) eqn:E; lia.
Qed.

Lemma slice_to_app a b :
  slice_to (a ++ b) (Z.of_nat (String.length a)) = a.
Proof.
  unfold slice_to. rewrite Nat2Z.id. induction a as [|x a IH].
  - destruct b; reflexivity.
  - rewrite string_app_cons. cbn [String.length String.substring].
    by rewrite IH.
Qed.

Lemma substring_all s : String.substring 0 (String.length s) s = s.
Proof.
  induction s as [|x s IH]; [reflexivity|].
  cbn [String.length String.substring]. by rewrite IH.
Qed.

Lemma string_length_app (a b : string) :
  String.length (a ++ b) = (String.length a + String.length b)%nat.
Proof.
  induction a as [|x a IH]; [reflexivity|].
  rewrite string_app_cons. cbn [String.length]. by rewrite IH.
Qed.

Lemma slice_from_app a b :
  slice_from (a ++ b) (Z.of_nat (String.length a)) = b.
Proof.
  unfold slice_from. rewrite Nat2Z.id, string_length_app.
  replace (String.length a + String.length b - String.length a)%nat
    with (String.length b) by lia.
  induction a as [|x a IH]; [apply substring_all|].
  rewrite string_app_cons. cbn [String.length String.substring]. apply IH.
Qed.

Section EntryCaller_paths.

Variable AppendInt : Z -> string.

(** X20: [TrimmedPath] keeps the leaf directory and the file name.  For a
    defined caller whose file is [pre/dir/base], with no separator in [dir]
    and [base], it returns [dir/base:line], whatever [pre] is; with fewer
    than two separators in the file it returns the full path, as [FullPath]
    and [String] always do; and for a caller [runtime.Caller] could not
    determine all three return "undefined". *)
Theorem TrimmedPath_keeps_leaf_directory (pc line : Z)
  (pre dir base file : string) :
  no_slash dir = true -> no_slash base = true ->
  let caller f := NewEntryCaller pc f line true in
  let suffix := (":" ++ AppendInt line)%string in
  EntryCaller_TrimmedPath AppendInt (caller (pre ++ "/" ++ dir ++ "/" ++ base)%string)
  = (dir ++ "/" ++ base ++ suffix)%string /\
  EntryCaller_TrimmedPath AppendInt (caller (dir ++ "/" ++ base)%string)
  = (dir ++ "/" ++ base ++ suffix)%string /\
  EntryCaller_TrimmedPath AppendInt (caller base) = (base ++ suffix)%string /\
  EntryCaller_String AppendInt (caller file) = (file ++ suffix)%string /\
  EntryCaller_TrimmedPath AppendInt (NewEntryCaller pc file line false)
  = "undefined"%string /\
  EntryCaller_String AppendInt (NewEntryCaller pc file line false)
  = "undefined"%string.
Proof.
  intros Hdir Hbase. cbv zeta.
  assert (Hassoc : forall a b c : string,
            (a ++ b ++ c)%string = ((a ++ b) ++ c)%string)
    by (intros; symmetry; apply string_append_assoc).
  repeat split.
  - unfold EntryCaller_TrimmedPath, NewEntryCaller.
    cbn [negb Defined_ File Line]. cbv zeta.
    change ("/" ++ dir ++ "/" ++ base)%string
      with (String "/" (dir ++ String "/" base)).
    assert (Hlast : LastIndexByte
                      (pre ++ String "/" (dir ++ String "/" base)) "/"
                    = Z.of_nat (String.length (pre ++ String "/" dir))).
    { rewrite <- (LastIndexByte_last_slash (pre ++ String "/" dir) base Hbase).
      f_equal. change (String "/" (dir ++ String "/" base))
        with (String "/" dir ++ String "/" base)%string.
      apply Hassoc. }
    rewrite Hlast.
    rewrite (proj2 (Z.eqb_neq (Z.of_nat _) (-1))) by lia.
    replace (pre ++ String "/" (dir ++ String "/" base))%string
      with ((pre ++ String "/" dir) ++ String "/" base)%string
      by (symmetry; apply (Hassoc pre (String "/" dir) (String "/" base))).
    rewrite slice_to_app, (LastIndexByte_last_slash pre dir Hdir).
    rewrite (proj2 (Z.eqb_neq (Z.of_nat _) (-1))) by lia.
    replace ((pre ++ String "/" dir) ++ String "/" base)%string
      with ((pre ++ "/") ++ dir ++ String "/" base)%string.
    2:{ rewrite !string_append_assoc. reflexivity. }
    replace (Z.of_nat (String.length pre) + 1)
      with (Z.of_nat (String.length (pre ++ "/"))).
    2:{ rewrite string_length_app. cbn [String.length]. lia. }
    rewrite slice_from_app. rewrite !string_append_assoc. reflexivity.
  - unfold EntryCaller_TrimmedPath, EntryCaller_FullPath, NewEntryCaller.
    cbn [negb Defined_ File Line]. cbv zeta.
    change ("/" ++ base)%string with (String "/" base).
    rewrite (LastIndexByte_last_slash dir base Hbase).
    rewrite (proj2 (Z.eqb_neq (Z.of_nat _) (-1))) by lia.
    rewrite slice_to_app, (LastIndexByte_no_slash dir Hdir).
    change (-1 =? -1) with true. cbv iota.
    rewrite !string_append_assoc. reflexivity.
  - unfold EntryCaller_TrimmedPath, EntryCaller_FullPath, NewEntryCaller.
    cbn [negb Defined_ File Line]. cbv zeta.
    rewrite (LastIndexByte_no_slash base Hbase). reflexivity.
Qed.

End EntryCaller_paths.

Lemma TrimmedPath_keeps_leaf_directory_witness :
  let caller f := NewEntryCaller 0 f 42 true in
  let suffix := (":" ++ "42")%string in
  EntryCaller_TrimmedPath (fun _ => "42"%string)
    (caller ("/go/src" ++ "/" ++ "zap" ++ "/" ++ "logger.go")%string)
  = ("zap" ++ "/" ++ "logger.go" ++ suffix)%string /\
  EntryCaller_TrimmedPath (fun _ => "42"%string)
    (caller ("zap" ++ "/" ++ "logger.go")%string)
  = ("zap" ++ "/" ++ "logger.go" ++ suffix)%string /\
  EntryCaller_TrimmedPath (fun _ => "42"%string) (caller "logger.go"%string)
  = ("logger.go" ++ suffix)%string /\
  EntryCaller_String (fun _ => "42"%string) (caller "a/b/c"%string)
  = ("a/b/c" ++ suffix)%string /\
  EntryCaller_TrimmedPath (fun _ => "42"%string)
    (NewEntryCaller 0 "a/b/c" 42 false)
  = "undefined"%string /\
  EntryCaller_String (fun _ => "42"%string)
    (NewEntryCaller 0 "a/b/c" 42 false)
  = "undefined"%string.
Proof.
  apply (TrimmedPath_keeps_leaf_directory (fun _ => "42"%string) 0 42
           "/go/src" "zap" "logger.go" "a/b/c"); reflexivity.
Defined.
